(** * beziyay: incremental fitting of cubic Bezier segments to a stroke

    A shallow embedding of the curve fitter (after Frisken, "Efficient Curve
    Fitting", JGT 13(2), 2008) and the properties of its segment state
    machine, its vector distance field and its iterative refiner.

    The program computes on JavaScript Numbers.  The embedding is written
    once over an interface [Number] that lists the operations the source
    uses (the arithmetic operators, the comparisons, and the functions of
    [Math]); the control-flow theorems hold for every interpretation of that
    interface.  Two interpretations are given: IEEE-754 binary64 through the
    kernel's primitive floats, which runs the code on concrete strokes, and
    the real numbers, which is the exact arithmetic the algorithm is designed
    in.

    How the source is read:
    - the module-level [curve] is passed in and returned; the segment a call
      returns is the last element of [curve.segments], as it is at the return;
    - an absent property is [None]; [update_status] is one of the three
      values of [UpdateStatus] or absent;
    - the counters that only count ([steps], and [i] over the sample points)
      are natural numbers; the counters of the rendering loops are Numbers,
      compared with [<] and incremented with [+ 1] as in the source, and
      those loops take [fuel]: a loop that is still running when the fuel is
      spent gives [Err OutOfFuel];
    - reading a property of [undefined] gives [Err TypeError];
    - the mouse listeners of test-utils/capture.ts are a function from the
      captured state and an event to the next state, and the test of
      src/main.test.ts is a function of the line it is run on. *)

From Stdlib Require Import ZArith List Bool Lia.
From Stdlib Require Reals Lra QArith Floats Uint63.
Import ListNotations.

Set Implicit Arguments.

(** ** Numbers *)

(** The operations of a JavaScript Number that the fitter uses.  [truthy] is
    ToBoolean on a Number, [same_key] says when two Numbers name the same
    property of an object (ToString agrees). *)
Class Number : Type := {
  num : Type;
  add : num -> num -> num;
  sub : num -> num -> num;
  mul : num -> num -> num;
  div : num -> num -> num;
  neg : num -> num;
  lt : num -> num -> bool;
  eq : num -> num -> bool;
  of_Z : Z -> num;
  lit_0_03 : num;
  lit_0_1 : num;
  lit_0_9 : num;
  lit_0_95 : num;
  Math_PI : num;
  Math_sqrt : num -> num;
  Math_abs : num -> num;
  Math_round : num -> num;
  Math_acos : num -> num;
  Math_max : num -> num -> num;
  Math_pow : num -> num -> num;
  truthy : num -> bool;
  same_key : num -> num -> bool
}.

Declare Scope num_scope.
Delimit Scope num_scope with num.
Notation "a + b" := (add a b) : num_scope.
Notation "a - b" := (sub a b) : num_scope.
Notation "a * b" := (mul a b) : num_scope.
Notation "a / b" := (div a b) : num_scope.
Notation "- a" := (neg a) : num_scope.
Notation "a <? b" := (lt a b) : num_scope.
Notation "a >? b" := (lt b a) (only parsing) : num_scope.
Notation "a ==? b" := (eq a b) (at level 70) : num_scope.
Notation "# z" := (of_Z z) (at level 1, format "# z") : num_scope.

(** ** Outcomes *)

(** A call either returns, or throws (a property read on [undefined]), or
    one of its counted loops is still running when the fuel is spent. *)
Inductive Fault : Set := TypeError | OutOfFuel.

Inductive Res (A : Type) : Type :=
| Ok (a : A)
| Err (f : Fault).
Arguments Ok {A} a.
Arguments Err {A} f.

Definition bind {A B : Type} (r : Res A) (k : A -> Res B) : Res B :=
  match r with
  | Ok a => k a
  | Err f => Err f
  end.

Notation "'do' a <- r ; k" := (bind r (fun a => k))
  (at level 10, a pattern, r at level 100, k at level 200).

(** ** Data model *)

Inductive UpdateStatus : Set := SUCCESS | FAIL_CORNER | FAIL_MAXED.

Definition UpdateStatus_eqb (a b : UpdateStatus) : bool :=
  match a, b with
  | SUCCESS, SUCCESS | FAIL_CORNER, FAIL_CORNER | FAIL_MAXED, FAIL_MAXED => true
  | _, _ => false
  end.

(** The records are over the type of numbers, [T]. *)
Record Vec (T : Type) : Type := mkVec { x : T; y : T }.

(** [constrain_to], [error], [steps] and [update_status] are absent
    ([undefined]) on a segment made by [initCurveSegment]. *)
Record CurveSegment (T : Type) : Type := mkSegment {
  c0 : Vec T;
  c1 : Vec T;
  c2 : Vec T;
  c3 : Vec T;
  constrain_to : option (Vec T);
  error : option T;
  steps : option nat;
  update_status : option UpdateStatus
}.

(** The vector distance map: [vdmap[x][y]], a sparse array of sparse arrays.
    A column exists from the first write to it. *)
Definition Column (T : Type) : Type := list (T * Vec T).
Definition VDMap (T : Type) : Type := list (T * Column T).

Record Curve (T : Type) : Type := mkCurve {
  segments : list (CurveSegment T);
  vdmap : VDMap T
}.

Section Fitter.

Context {N : Number}.
Open Scope num_scope.

(** ** Constants *)

Definition MAX_ERROR : num := #2.
Definition FIELD_RADIUS : num := #9.
Definition NUM_SAMPLE_POINTS : nat := 9.
Definition MAX_ITERATIONS : nat := 50.
Definition MAX_CORNER_ANGLE : num := #80.
Definition RADIAL_SIMPLIFICATION : num := #1.

Definition of_nat (n : nat) : num := #(Z.of_nat n).

(** ** Vector utilities *)

Definition negateVec (vec : Vec num) : Vec num := mkVec (- x vec) (- y vec).
Definition roundVec (vec : Vec num) : Vec num := mkVec (Math_round (x vec)) (Math_round (y vec)).
Definition sumOfSquaresVec (vec : Vec num) : num :=
  Math_pow (x vec) #2 + Math_pow (y vec) #2.
Definition magnitudeVec (vec : Vec num) : num := Math_sqrt (sumOfSquaresVec vec).
Definition addVec (a b : Vec num) : Vec num := mkVec (x a + x b) (y a + y b).
Definition subVec (a b : Vec num) : Vec num := addVec a (negateVec b).
Definition multVec (a : Vec num) (scalar_b : num) : Vec num :=
  mkVec (x a * scalar_b) (y a * scalar_b).
Definition divVec (a : Vec num) (scalar_b : num) : Vec num := multVec a (#1 / scalar_b).
Definition equalVec (a b : Vec num) : bool := (x a ==? x b) && (y a ==? y b).

Definition dotProduct (a b : Vec num) : num := x a * x b + y a * y b.
Definition getMagnitude (p p2 : Vec num) : num :=
  Math_sqrt (Math_pow (x p - x p2) #2 + Math_pow (y p - y p2) #2).
Definition radiansToDegrees (rad : num) : num := (rad * #180) / Math_PI.

Definition getDDASteps (diff : Vec num) : num :=
  Math_max (Math_abs (x diff)) (Math_abs (y diff)).
Definition getUnitVector (v : Vec num) : Vec num :=
  let magnitude := getMagnitude (mkVec (x v) (y v)) (mkVec #0 #0) in
  mkVec (x v / magnitude) (y v / magnitude).
Definition getPerpindicularUnitVector (a b : Vec num) : Vec num :=
  let delta_x := x b - x a in
  let delta_y := y b - y a in
  getUnitVector (mkVec delta_y (- delta_x)).
Definition getScaledVectorDifference (uvec : Vec num) : Vec num :=
  mkVec (x uvec * FIELD_RADIUS) (y uvec * FIELD_RADIUS).

(** ** Bezier segments *)

Definition singleComponentBezier (t w0 w1 w2 w3 : num) : num :=
  w0 * Math_pow (#1 - t) #3
  + w1 * #3 * t * Math_pow (#1 - t) #2
  + w2 * #3 * Math_pow t #2 * (#1 - t)
  + w3 * Math_pow t #3.

Definition getPointAlongCurve (curve : CurveSegment num) (t : num) : Vec num :=
  mkVec (singleComponentBezier t (x (c0 curve)) (x (c1 curve)) (x (c2 curve)) (x (c3 curve)))
        (singleComponentBezier t (y (c0 curve)) (y (c1 curve)) (y (c2 curve)) (y (c3 curve))).

Definition getCurveEndTangent (curve : CurveSegment num) : Vec num :=
  let endpoint := c3 curve in
  let control_point := c2 curve in
  mkVec (#3 * (x control_point - x endpoint)) (#3 * (y control_point - y endpoint)).

Definition getSegmentMidpoint (segment : CurveSegment num) : Vec num :=
  addVec (divVec (subVec (c3 segment) (c0 segment)) #2) (c0 segment).

Definition initCurveSegment (px py : num) : CurveSegment num :=
  mkSegment (mkVec px py) (mkVec px py) (mkVec px py) (mkVec px py)
            None None None None.

Definition getLastSegment (curve : Curve num) : option (CurveSegment num) :=
  last (map Some (segments curve)) None.
Definition getLastPoint (segment : CurveSegment num) : Vec num := c3 segment.

(** [segment.error || 0] *)
Definition error_or_0 (e : option num) : num :=
  match e with
  | Some v => if truthy v then v else #0
  | None => #0
  end.

Definition copySegment (segment : CurveSegment num) : CurveSegment num :=
  mkSegment (mkVec (x (c0 segment)) (y (c0 segment)))
            (mkVec (x (c1 segment)) (y (c1 segment)))
            (mkVec (x (c2 segment)) (y (c2 segment)))
            (mkVec (x (c3 segment)) (y (c3 segment)))
            (match constrain_to segment with
             | None => None
             | Some v => Some (mkVec (x v) (y v))
             end)
            (Some (error_or_0 (error segment)))
            None
            (update_status segment).

Definition createCurve (p : Vec num) : Curve num :=
  mkCurve ([] ++ [initCurveSegment (x p) (y p)]) [].

(** ** Distance field *)

Fixpoint assoc_get {V : Type} (k : num) (l : list (num * V)) : option V :=
  match l with
  | [] => None
  | (k', v) :: r => if same_key k k' then Some v else assoc_get k r
  end.

Fixpoint assoc_set {V : Type} (k : num) (v : V) (l : list (num * V)) : list (num * V) :=
  match l with
  | [] => [(k, v)]
  | (k', v') :: r =>
      if same_key k k' then (k', v) :: r else (k', v') :: assoc_set k v r
  end.

(** [vdmap[x][y]], [undefined] when the column or the cell is absent. *)
Definition vdmap_get (m : VDMap num) (p : Vec num) : option (Vec num) :=
  match assoc_get (x p) m with
  | Some col => assoc_get (y p) col
  | None => None
  end.

(** The body shared by the two rendering loops of [updateDistanceField]
    (strip, lines 151-160; end cap, lines 175-184): create the column if it
    is missing, then store [val] in an empty cell, and in a filled cell keep
    what is stored only when its sum of squares is below that of [val]. *)
Definition storeCloser (m : VDMap num) (p : Vec num) (val : Vec num) : VDMap num :=
  let col := match assoc_get (x p) m with
             | Some col => col
             | None => []
             end in
  let kept := match assoc_get (y p) col with
              | None => val
              | Some stored =>
                  if sumOfSquaresVec stored <? sumOfSquaresVec val then stored else val
              end in
  assoc_set (x p) (assoc_set (y p) kept col) m.

Definition getDistanceFromPolyline (m : VDMap num) (p : Vec num) : Vec num :=
  match assoc_get (x p) m with
  | Some col =>
      let first := assoc_get (y p) col in
      let second := assoc_get (y p + #1) col in
      let val := match first with
                 | Some f => mkVec (x f) (y f)
                 | None => mkVec FIELD_RADIUS FIELD_RADIUS
                 end in
      let val := match second with
                 | Some s =>
                     if Math_abs (x val) >? Math_abs (x s) then mkVec (x s) (y val) else val
                 | None => val
                 end in
      let val := match second with
                 | Some s =>
                     if Math_abs (y val) >? Math_abs (y s) then mkVec (x val) (y s) else val
                 | None => val
                 end in
      val
  | None => mkVec FIELD_RADIUS FIELD_RADIUS
  end.

(** The inner loop of the strip, [for (let j = 0; j < vert_steps; j++)]. *)
Fixpoint stripColumn (fuel : nat) (j vert_steps : num) (vert_increment : Vec num)
    (m : VDMap num) (current_location current_val : Vec num) : Res (VDMap num) :=
  if j <? vert_steps then
    match fuel with
    | O => Err OutOfFuel
    | S fuel' =>
        let m' := storeCloser m (roundVec current_location) (roundVec current_val) in
        stripColumn fuel' (j + #1) vert_steps vert_increment m'
                    (addVec current_location vert_increment)
                    (addVec current_val vert_increment)
    end
  else Ok m.

(** The outer loop of the strip, [for (let i = 0; i < horiz_steps; i++)];
    [inner] is the fuel of each inner loop. *)
Fixpoint stripRows (fuel inner : nat) (i horiz_steps : num) (horiz_increment : Vec num)
    (vert_steps : num) (vert_increment dist : Vec num)
    (m : VDMap num) (current_horiz_location : Vec num) : Res (VDMap num) :=
  if i <? horiz_steps then
    match fuel with
    | O => Err OutOfFuel
    | S fuel' =>
        do m' <- stripColumn inner #0 vert_steps vert_increment m
                             current_horiz_location dist;
        stripRows fuel' inner (i + #1) horiz_steps horiz_increment
                  vert_steps vert_increment dist m'
                  (addVec current_horiz_location horiz_increment)
    end
  else Ok m.

(** Lines 122-167: the rectangle of half-width [FIELD_RADIUS] around the
    line from [last_point] to [current_point]. *)
Definition paintStrip (fuel : nat) (m : VDMap num) (last_point current_point : Vec num) : Res (VDMap num) :=
  let perp_vec := getPerpindicularUnitVector last_point current_point in
  let dist := getScaledVectorDifference perp_vec in
  let a1 := addVec last_point dist in
  let b1 := addVec current_point dist in
  let vert_diff := negateVec (multVec dist #2) in
  let vert_steps := getDDASteps vert_diff in
  let vert_increment := divVec vert_diff vert_steps in
  let horiz_diff := subVec b1 a1 in
  let horiz_steps := getDDASteps horiz_diff in
  let horiz_increment := divVec horiz_diff horiz_steps in
  stripRows fuel fuel #0 horiz_steps horiz_increment vert_steps vert_increment dist m a1.

(** The inner loop of the cap, [for (let y = upperLeftPoint.y; y < bottomRightPoint.y; y++)]. *)
Fixpoint capColumn (fuel : nat) (px py bottom : num) (current_point : Vec num)
    (m : VDMap num) : Res (VDMap num) :=
  if py <? bottom then
    match fuel with
    | O => Err OutOfFuel
    | S fuel' =>
        let val := subVec (mkVec px py) current_point in
        capColumn fuel' px (py + #1) bottom current_point
                  (storeCloser m (mkVec px py) val)
    end
  else Ok m.

(** The outer loop of the cap, [for (let x = upperLeftPoint.x; x < bottomRightPoint.x; x++)]. *)
Fixpoint capRows (fuel inner : nat) (px right top bottom : num) (current_point : Vec num)
    (m : VDMap num) : Res (VDMap num) :=
  if px <? right then
    match fuel with
    | O => Err OutOfFuel
    | S fuel' =>
        do m' <- capColumn inner px top bottom current_point m;
        capRows fuel' inner (px + #1) right top bottom current_point m'
    end
  else Ok m.

(** Lines 171-186: the square cap at the endpoint. *)
Definition paintEndCap (fuel : nat) (m : VDMap num) (current_point : Vec num) : Res (VDMap num) :=
  let upperLeftPoint := subVec current_point (mkVec FIELD_RADIUS FIELD_RADIUS) in
  let bottomRightPoint := addVec current_point (mkVec FIELD_RADIUS FIELD_RADIUS) in
  capRows fuel fuel (x upperLeftPoint) (x bottomRightPoint)
          (y upperLeftPoint) (y bottomRightPoint) current_point m.

(** ** Corner detector *)

Definition SHOULD_USE_NEW_CORNER_FINDER : bool := true.
Definition SHOULD_USE_MY_FORCE_VECTORS : bool := true.

Definition checkCorner (curveSegment : CurveSegment num) (point : Vec num) : bool :=
  if equalVec (c0 curveSegment) (c3 curveSegment) then false
  else
    let tan :=
      if SHOULD_USE_NEW_CORNER_FINDER
      then getUnitVector (subVec (getPointAlongCurve curveSegment lit_0_95) (c3 curveSegment))
      else getUnitVector (getCurveEndTangent curveSegment) in
    let new_segment :=
      getUnitVector (mkVec (x point - x (c3 curveSegment)) (y point - y (c3 curveSegment))) in
    let dot := dotProduct tan new_segment in
    let angle := radiansToDegrees (Math_acos dot) in
    if angle <? MAX_CORNER_ANGLE then true else false.

(** ** Iterative refiner *)

(** Mutations of the active segment go to the last element of
    [curve.segments], which the local [segment] aliases. *)
Definition setLastSegment (curve : Curve num) (segment : CurveSegment num) : Curve num :=
  mkCurve (removelast (segments curve) ++ [segment]) (vdmap curve).

Definition set_c1 (s : CurveSegment num) (v : Vec num) : CurveSegment num :=
  mkSegment (c0 s) v (c2 s) (c3 s) (constrain_to s) (error s) (steps s) (update_status s).
Definition set_c2 (s : CurveSegment num) (v : Vec num) : CurveSegment num :=
  mkSegment (c0 s) (c1 s) v (c3 s) (constrain_to s) (error s) (steps s) (update_status s).
Definition set_c3 (s : CurveSegment num) (v : Vec num) : CurveSegment num :=
  mkSegment (c0 s) (c1 s) (c2 s) v (constrain_to s) (error s) (steps s) (update_status s).
Definition set_constrain_to (s : CurveSegment num) (v : option (Vec num)) : CurveSegment num :=
  mkSegment (c0 s) (c1 s) (c2 s) (c3 s) v (error s) (steps s) (update_status s).
Definition set_error_steps (s : CurveSegment num) (e : num) (n : nat) : CurveSegment num :=
  mkSegment (c0 s) (c1 s) (c2 s) (c3 s) (constrain_to s) (Some e) (Some n) (update_status s).
Definition set_update_status (s : CurveSegment num) (u : UpdateStatus) : CurveSegment num :=
  mkSegment (c0 s) (c1 s) (c2 s) (c3 s) (constrain_to s) (error s) (steps s) (Some u).

(** One turn of the loop of lines 200-215: the sample at [t = i / 9] adds
    its pull to the two force vectors. *)
Definition addSampleForce (m : VDMap num) (segment : CurveSegment num) (f : Vec num * Vec num) (i : nat)
    : Vec num * Vec num :=
  let '(f1, f2) := f in
  let t := of_nat i / of_nat NUM_SAMPLE_POINTS in
  let point := roundVec (getPointAlongCurve segment t) in
  let dist := getDistanceFromPolyline m point in
  let d := magnitudeVec dist in
  let dx := x dist in
  let dy := y dist in
  let modifier :=
    if SHOULD_USE_MY_FORCE_VECTORS
    then (if (t <? lit_0_1) || (t >? lit_0_9) then #10 else #1)
    else #1 in
  (mkVec (x f1 + t * Math_pow (#1 - t) #2 * d * dx * modifier)
         (y f1 + t * Math_pow (#1 - t) #2 * d * dy * modifier),
   mkVec (x f2 + Math_pow t #2 * (#1 - t) * d * dx * modifier)
         (y f2 + Math_pow t #2 * (#1 - t) * d * dy * modifier)).

(** Lines 192-233: the force vectors of one iteration, damped toward the
    midpoint and, on a constrained segment, projected on [constrain_to]. *)
Definition forceVectors (m : VDMap num) (segment : CurveSegment num) : Vec num * Vec num :=
  let '(f1, f2) :=
    fold_left (addSampleForce m segment) (seq 0 NUM_SAMPLE_POINTS)
              (mkVec #0 #0, mkVec #0 #0) in
  let '(f1, f2) :=
    if SHOULD_USE_MY_FORCE_VECTORS then
      let from_end := subVec (getSegmentMidpoint segment) (c2 segment) in
      let from_beginning := subVec (getSegmentMidpoint segment) (c1 segment) in
      (subVec f1 (multVec from_beginning lit_0_03), subVec f2 (multVec from_end lit_0_03))
    else (f1, f2) in
  let f1 := match constrain_to segment with
            | Some c => multVec c (dotProduct c f1)
            | None => f1
            end in
  (f1, f2).

(** Lines 237-241. *)
Definition applyForces (segment : CurveSegment num) (f : Vec num * Vec num) : CurveSegment num :=
  let '(f1, f2) := f in
  let alpha := #1 in
  let segment :=
    set_c1 segment (mkVec (x (c1 segment) - (alpha * x f1 * #6) / of_nat NUM_SAMPLE_POINTS)
                          (y (c1 segment) - (alpha * y f1 * #6) / of_nat NUM_SAMPLE_POINTS)) in
  set_c2 segment (mkVec (x (c2 segment) - (alpha * x f2 * #6) / of_nat NUM_SAMPLE_POINTS)
                        (y (c2 segment) - (alpha * y f2 * #6) / of_nat NUM_SAMPLE_POINTS)).

(** Lines 245-252. *)
Definition addSampleError (m : VDMap num) (segment : CurveSegment num) (error : num) (i : nat) : num :=
  let t := of_nat i / of_nat NUM_SAMPLE_POINTS in
  let point := getPointAlongCurve segment t in
  let dist := getDistanceFromPolyline m (roundVec point) in
  error + (Math_pow (x dist) #2 + Math_pow (y dist) #2).

Definition curveError (m : VDMap num) (segment : CurveSegment num) : num :=
  fold_left (addSampleError m segment) (seq 0 NUM_SAMPLE_POINTS) #0
  / of_nat NUM_SAMPLE_POINTS.

(** Lines 190-261: [while (true) { ...; if (...) break; }], returning the
    segment and the value of [steps] at the [break]. *)
Fixpoint refineLoop (fuel : nat) (m : VDMap num) (segment : CurveSegment num) (steps : nat)
    : Res (CurveSegment num * nat) :=
  match fuel with
  | O => Err OutOfFuel
  | S fuel' =>
      let segment := applyForces segment (forceVectors m segment) in
      let error := curveError m segment in
      let steps := S steps in
      let segment := set_error_steps segment error steps in
      if (error <? MAX_ERROR) || (MAX_ITERATIONS <? steps)%nat
      then Ok (segment, steps)
      else refineLoop fuel' m segment steps
  end.

(** The segment after one turn of the loop, as [refineLoop] computes it. *)
Definition loopBody (m : VDMap num) (segment : CurveSegment num) (steps : nat) : CurveSegment num :=
  let segment := applyForces segment (forceVectors m segment) in
  set_error_steps segment (curveError m segment) (S steps).

(** Lines 265-274: put the segment back the way it was. *)
Definition restoreSegment (segment og_controls : CurveSegment num) : CurveSegment num :=
  mkSegment (c0 og_controls) (c1 og_controls) (c2 og_controls) (c3 og_controls)
            (constrain_to og_controls) (error og_controls) (steps segment)
            (Some FAIL_MAXED).

(** Lines 113-117: the end point moves to the new point and [c2] moves
    with it. *)
Definition extendSegment (segment : CurveSegment num) (current_point : Vec num) : CurveSegment num :=
  let last_point := getLastPoint segment in
  let segment := set_c3 segment (mkVec (x current_point) (y current_point)) in
  set_c2 segment (mkVec (x (c2 segment) + x current_point - x last_point)
                        (y (c2 segment) + y current_point - y last_point)).

Definition updateDistanceField (fuel : nat) (curve : Curve num) (current_point : Vec num)
    : Res (Curve num * CurveSegment num) :=
  match getLastSegment curve with
  | None => Err TypeError
  | Some segment =>
      let last_point := getLastPoint segment in
      let og_controls := copySegment segment in
      if checkCorner segment current_point then
        let segment := set_update_status segment FAIL_CORNER in
        Ok (setLastSegment curve segment, segment)
      else
        let segment := extendSegment segment current_point in
        do m <- paintStrip fuel (vdmap curve) last_point current_point;
        do m <- paintEndCap fuel m current_point;
        do r <- refineLoop fuel m segment 0;
        let '(segment, steps) := r in
        let segment :=
          if (MAX_ITERATIONS <? steps)%nat
          then restoreSegment segment og_controls
          else set_update_status segment SUCCESS in
        Ok (setLastSegment (mkCurve (segments curve) m) segment, segment)
  end.

(** ** Curve orchestrator *)

Definition status_is (s : CurveSegment num) (u : UpdateStatus) : bool :=
  match update_status s with
  | Some v => UpdateStatus_eqb v u
  | None => false
  end.

(** Lines 79-96: after a failure the next point opens a new segment at the
    old end point, and the distance map starts again. *)
Definition startNewSegment (curve : Curve num) (last_segment : CurveSegment num) : Curve num :=
  let last_point := getLastPoint last_segment in
  match update_status last_segment with
  | None => curve
  | Some SUCCESS => curve
  | Some FAIL_CORNER =>
      mkCurve (segments curve ++ [initCurveSegment (x last_point) (y last_point)]) []
  | Some FAIL_MAXED =>
      let new_segment := initCurveSegment (x last_point) (y last_point) in
      let new_segment :=
        set_constrain_to new_segment
          (Some (getUnitVector (getCurveEndTangent last_segment))) in
      mkCurve (segments curve ++ [new_segment]) []
  end.

Definition addToCurveImpl (fuel : nat) (curve : Curve num) (new_point : Vec num)
    : Res (Curve num * CurveSegment num) :=
  match getLastSegment curve with
  | None => Err TypeError
  | Some last_segment =>
      if getMagnitude new_point (getLastPoint last_segment) <? RADIAL_SIMPLIFICATION
      then Ok (curve, last_segment)
      else updateDistanceField fuel (startNewSegment curve last_segment) new_point
  end.

Definition startCurve (coord : Vec num) : Curve num := createCurve (roundVec coord).

Definition addToCurve (fuel : nat) (curve : Curve num) (coord : Vec num)
    : Res (Curve num * CurveSegment num) :=
  let rounded_coord := roundVec coord in
  do r <- addToCurveImpl fuel curve rounded_coord;
  let '(curve, segment) := r in
  if status_is segment SUCCESS then Ok (curve, segment)
  else addToCurveImpl fuel curve rounded_coord.

(** The input source of the fitter: one [startCurve] at the beginning of a
    stroke, then one [addToCurve] for each later sample, in order.  The
    result lists the segment each [addToCurve] returned, as it was when
    returned. *)
Fixpoint addAllToCurve (fuel : nat) (curve : Curve num) (coords : list (Vec num))
    : Res (Curve num * list (CurveSegment num)) :=
  match coords with
  | [] => Ok (curve, [])
  | coord :: rest =>
      do r <- addToCurve fuel curve coord;
      let '(curve, segment) := r in
      do rs <- addAllToCurve fuel curve rest;
      let '(curve, returned) := rs in
      Ok (curve, segment :: returned)
  end.

Definition drawStroke (fuel : nat) (first : Vec num) (rest : list (Vec num))
    : Res (Curve num * list (CurveSegment num)) :=
  addAllToCurve fuel (startCurve first) rest.

(** ** The test (src/main.test.ts) *)

(** What [rest.reduce((memo, point) => addToCurve(point))] holds in [memo]:
    the first element of [rest] before the first call, then what
    [addToCurve] returned. *)
Inductive Memo : Type :=
| MemoPoint (p : Vec num)
| MemoSegment (s : CurveSegment num).

(** [Array.prototype.reduce] without an initial value, from the second
    element on. *)
Fixpoint reduceAddToCurve (fuel : nat) (curve : Curve num) (memo : Memo)
    (points : list (Vec num)) : Res (Curve num * Memo) :=
  match points with
  | [] => Ok (curve, memo)
  | point :: r =>
      do cs <- addToCurve fuel curve point;
      let '(curve, segment) := cs in
      reduceAddToCurve fuel curve (MemoSegment segment) r
  end.

(** The body of the test of src/main.test.ts on one line: the curve it
    leaves and the value it hands to [expect].  An empty line gives
    [startCurve(undefined)], and [reduce] on an empty [rest] throws. *)
Definition fitsCurves (fuel : nat) (line : list (Vec num)) : Res (Curve num * Memo) :=
  match line with
  | [] => Err TypeError
  | first :: rest =>
      let curve := startCurve first in
      match rest with
      | [] => Err TypeError
      | second :: r => reduceAddToCurve fuel curve (MemoPoint second) r
      end
  end.


(** ** The specification's wording, where it is compared with the code *)

(** The corner test with the exit tangent as the specification words it:
    the direction from the curve point at [t = 0.95] to the end point. *)
Definition checkCorner_as_specified (curveSegment : CurveSegment num) (point : Vec num) : bool :=
  if equalVec (c0 curveSegment) (c3 curveSegment) then false
  else
    let tan :=
      getUnitVector (subVec (c3 curveSegment) (getPointAlongCurve curveSegment lit_0_95)) in
    let new_segment :=
      getUnitVector (mkVec (x point - x (c3 curveSegment)) (y point - y (c3 curveSegment))) in
    let angle := radiansToDegrees (Math_acos (dotProduct tan new_segment)) in
    if angle <? MAX_CORNER_ANGLE then true else false.

(** The closer-wins rule as the specification words it: the stored value is
    replaced only if the candidate is strictly smaller, a tie keeps it. *)
Definition storeCloser_as_specified (m : VDMap num) (p : Vec num) (val : Vec num) : VDMap num :=
  let col := match assoc_get (x p) m with
             | Some col => col
             | None => []
             end in
  let kept := match assoc_get (y p) col with
              | None => val
              | Some stored =>
                  if sumOfSquaresVec val <? sumOfSquaresVec stored then val else stored
              end in
  assoc_set (x p) (assoc_set (y p) kept col) m.

(** ** Predicates of the properties *)

(** What a returning call of [updateDistanceField] did: it stopped at the
    corner test, or it extended the segment, painted the strip and the cap,
    ran the loop, and then either restored the snapshot or kept the fit. *)
Inductive Refined (fuel : nat) (curve : Curve num) (p : Vec num) (segment : CurveSegment num)
    (curve' : Curve num) (s' : CurveSegment num) : Prop :=
| refined_corner :
    checkCorner segment p = true ->
    s' = set_update_status segment FAIL_CORNER ->
    curve' = setLastSegment curve s' ->
    Refined fuel curve p segment curve' s'
| refined_maxed (m1 m2 : VDMap num) (seg : CurveSegment num) (n : nat) :
    checkCorner segment p = false ->
    paintStrip fuel (vdmap curve) (getLastPoint segment) p = Ok m1 ->
    paintEndCap fuel m1 p = Ok m2 ->
    refineLoop fuel m2 (extendSegment segment p) 0 = Ok (seg, n) ->
    (MAX_ITERATIONS < n)%nat ->
    s' = restoreSegment seg (copySegment segment) ->
    curve' = setLastSegment (mkCurve (segments curve) m2) s' ->
    Refined fuel curve p segment curve' s'
| refined_success (m1 m2 : VDMap num) (seg : CurveSegment num) (n : nat) :
    checkCorner segment p = false ->
    paintStrip fuel (vdmap curve) (getLastPoint segment) p = Ok m1 ->
    paintEndCap fuel m1 p = Ok m2 ->
    refineLoop fuel m2 (extendSegment segment p) 0 = Ok (seg, n) ->
    (n <= MAX_ITERATIONS)%nat ->
    s' = set_update_status seg SUCCESS ->
    curve' = setLastSegment (mkCurve (segments curve) m2) s' ->
    Refined fuel curve p segment curve' s'.

(** A segment that reports [SUCCESS] carries an error below [MAX_ERROR]. *)
Definition converged (s : CurveSegment num) : Prop :=
  status_is s SUCCESS = true ->
  exists e, error s = Some e /\ (e <? MAX_ERROR) = true.


(** A segment that was given up, at a corner or at the iteration bound. *)
Definition failed (s : CurveSegment num) : Prop :=
  update_status s = Some FAIL_CORNER \/ update_status s = Some FAIL_MAXED.

(** The test of line 76: the point is dropped as a duplicate. *)
Definition tooClose (p : Vec num) (s : CurveSegment num) : bool :=
  getMagnitude p (getLastPoint s) <? RADIAL_SIMPLIFICATION.

(** Each segment starts where the one before it ends. *)
Definition chained (l : list (CurveSegment num)) : Prop :=
  forall pre a b post, l = pre ++ a :: b :: post -> c0 b = c3 a.

(** The first segment starts at [start]. *)
Definition startsAt (start : Vec num) (l : list (CurveSegment num)) : Prop :=
  match l with
  | [] => False
  | s :: _ => c0 s = start
  end.

(** The curve of a stroke that began at [start]. *)
Definition wellFormed (start : Vec num) (curve : Curve num) : Prop :=
  startsAt start (segments curve) /\
  chained (segments curve) /\
  Forall failed (removelast (segments curve)).

End Fitter.

(** ** The input source (test-utils/capture.ts) *)

(** The three listeners on [window], with the page coordinates of the
    event as a point. *)
Inductive MouseEvent (T : Type) : Type :=
| mousedown (p : Vec T)
| mousemove (p : Vec T)
| mouseup.
Arguments mouseup {T}.

(** [window.lines] and the module's [isDrawing]. *)
Record Capture (T : Type) : Type := mkCapture {
  lines : list (list (Vec T));
  isDrawing : bool
}.

Section CaptureModel.

Variable T : Type.

Definition initCapture : Capture T := mkCapture [] false.

(** One event.  [window.lines[window.lines.length - 1].push] throws when
    there is no line. *)
Definition handleEvent (w : Capture T) (e : MouseEvent T) : Res (Capture T) :=
  match e with
  | mousedown p => Ok (mkCapture (lines w ++ [[p]]) true)
  | mousemove p =>
      if negb (isDrawing w) then Ok w
      else
        match last (map Some (lines w)) None with
        | None => Err TypeError
        | Some line => Ok (mkCapture (removelast (lines w) ++ [line ++ [p]]) (isDrawing w))
        end
  | mouseup => Ok (mkCapture (lines w) false)
  end.

Fixpoint handleEvents (w : Capture T) (es : list (MouseEvent T)) : Res (Capture T) :=
  match es with
  | [] => Ok w
  | e :: r => do w' <- handleEvent w e; handleEvents w' r
  end.

Definition isMousedown (e : MouseEvent T) : bool :=
  match e with
  | mousedown _ => true
  | _ => false
  end.

End CaptureModel.


(** ** IEEE-754 binary64 *)

Module IEEE.

Import Floats.

(** The integer part of a finite float, rounded toward minus infinity. *)
Definition floorZ (f : float) : Z :=
  match Prim2SF f with
  | S754_finite s m e =>
      let n := if s then Zneg m else Zpos m in
      if (0 <=? e)%Z then (n * 2 ^ e)%Z else (n / 2 ^ (- e))%Z
  | _ => 0%Z
  end.

Definition float_of_Z (z : Z) : float :=
  if (0 <=? z)%Z then of_uint63 (Uint63.of_Z z)
  else (- of_uint63 (Uint63.of_Z (- z)))%float.

Definition two52 : float := Eval vm_compute in float_of_Z (2 ^ 52).

(** [Math.round]: the nearest integer, a tie going up; NaN, the infinities
    and the zeros are returned as they are, and a result of zero has the
    sign of the argument. *)
Definition round (v : float) : float :=
  if negb (PrimFloat.abs v <? two52)%float then v
  else if (v =? 0)%float then v
  else
    let f := float_of_Z (floorZ v) in
    let r := if (v - f <? 0.5)%float then f else (f + 1)%float in
    if (r =? 0)%float && (v <? 0)%float then (- 0)%float else r.

(** [Math.max] of two arguments. *)
Definition max (a b : float) : float :=
  if is_nan a || is_nan b then nan
  else if (a <? b)%float then b
  else if (b <? a)%float then a
  else if (1 / a <? 0)%float then b else a.

(** [Math.pow], which ECMAScript leaves implementation-approximated, for
    the exponents the fitter passes (2 and 3, literally): repeated
    multiplication, each product rounded. *)
Definition pow (b e : float) : float :=
  if (e =? 2)%float then (b * b)%float
  else if (e =? 3)%float then (b * b * b)%float
  else if (e =? 1)%float then b
  else if (e =? 0)%float then 1%float
  else nan.

Definition PI : float := 0x1.921fb54442d18p+1%float.

(** The arc tangent on [0, 1/8]: the series up to the 25th power. *)
Fixpoint atan_series (n : nat) (k : float) (zk z2 acc : float) : float :=
  match n with
  | O => acc
  | S n' => atan_series n' (k + 2)%float (- (zk * z2))%float z2 (acc + zk / k)%float
  end.

(** Halve the angle: [atan z = 2 atan (z / (1 + sqrt (1 + z^2)))]. *)
Definition half_angle (z : float) : float := (z / (1 + PrimFloat.sqrt (1 + z * z)))%float.

(** The arc tangent of [z] in [0, 1]. *)
Definition atan01 (z : float) : float :=
  let w := half_angle (half_angle (half_angle z)) in
  (8 * atan_series 13 1 w (w * w) 0)%float.

(** The arc tangent of a non-negative [z], infinity included. *)
Definition atan_pos (z : float) : float :=
  if (z <=? 1)%float then atan01 z
  else (PI / 2 - atan01 (1 / z))%float.

(** [Math.acos], which ECMAScript leaves implementation-approximated:
    [2 atan (sqrt (1 - v) / sqrt (1 + v))], NaN outside [-1, 1]. *)
Definition acos (v : float) : float :=
  if (v =? 1)%float then 0%float
  else if (- 1 <=? v)%float && (v <? 1)%float
       then (2 * atan_pos (PrimFloat.sqrt (1 - v) / PrimFloat.sqrt (1 + v)))%float
       else nan.

#[export] Instance binary64 : Number :=
  Build_Number
    PrimFloat.add PrimFloat.sub PrimFloat.mul PrimFloat.div PrimFloat.opp
    PrimFloat.ltb PrimFloat.eqb
    float_of_Z
    (3 / 100)%float (1 / 10)%float (9 / 10)%float (95 / 100)%float
    PI
    PrimFloat.sqrt PrimFloat.abs round acos max pow
    (fun v => negb (v =? 0)%float && (v =? v)%float)
    (fun a b => (a =? b)%float || (is_nan a && is_nan b)).

Definition vec (a b : float) : Vec float := @mkVec float a b.

(** A point with integer coordinates. *)
Definition pt (a b : Z) : Vec float := vec (float_of_Z a) (float_of_Z b).

(** The largest power of two of binary64, an integer. *)
Definition huge : float := 0x1p+1023%float.



(** What a call returned, or a default when it did not return. *)
Definition returned {A : Type} (d : A) (r : Res A) : A :=
  match r with
  | Ok a => a
  | Err _ => d
  end.

Definition isOk {A : Type} (r : Res A) : bool :=
  match r with
  | Ok _ => true
  | Err _ => false
  end.

Definition curveAfter (first : Vec float) (rest : list (Vec float)) : Curve float :=
  fst (returned (mkCurve [] [], []) (drawStroke 100 first rest)).

Definition segmentsReturned (first : Vec float) (rest : list (Vec float)) : list (CurveSegment float) :=
  snd (returned (mkCurve [] [], []) (drawStroke 100 first rest)).

Definition activeSegment (curve : Curve float) : CurveSegment float :=
  match getLastSegment curve with
  | Some s => s
  | None => initCurveSegment 0%float 0%float
  end.


(** The stages of a refinement step on the active segment of [curve]. *)
Definition stripOf (curve : Curve float) (p : Vec float) : VDMap float :=
  returned [] (paintStrip 100 (vdmap curve) (getLastPoint (activeSegment curve)) p).
Definition capOf (curve : Curve float) (p : Vec float) : VDMap float :=
  returned [] (paintEndCap 100 (stripOf curve p) p).
Definition loopOf (curve : Curve float) (p : Vec float) : CurveSegment float * nat :=
  returned (activeSegment curve, O)
    (refineLoop 100 (capOf curve p) (extendSegment (activeSegment curve) p) 0).
Definition refinedOf (curve : Curve float) (p : Vec float) : Curve float * CurveSegment float :=
  returned (curve, activeSegment curve) (updateDistanceField 100 curve p).


(** A stroke along the x axis, and a point that doubles back. *)
Definition axis_curve : Curve float := curveAfter (pt 0 0) [pt 10 0].
Definition back_point : Vec float := pt 0 1.
Definition back_attempt : Curve float * CurveSegment float :=
  refinedOf (startNewSegment axis_curve (activeSegment axis_curve)) (roundVec back_point).

(** A stroke from (-2^1023, 0) to (2^1023, 0): nothing is painted and no
    fit is found, neither on the first segment nor on the retry. *)
Definition stuck_curve : Curve float := curveAfter (vec (- huge) 0) [vec huge 0].

(** The property name of a Number: the two zeros name the same property. *)
Definition keyOfSF (v : spec_float) : spec_float :=
  match v with
  | S754_zero _ => S754_zero false
  | _ => v
  end.

Definition keyOf (f : float) : spec_float := keyOfSF (Prim2SF f).

(** What [addToCurve] returned on [curve], or the curve as it was. *)
Definition addedTo (curve : Curve float) (coord : Vec float) : Curve float * CurveSegment float :=
  returned (curve, activeSegment curve) (addToCurve 100 curve coord).

(** A segment that was given up at a corner, alone on its curve. *)
Definition cornered : CurveSegment float :=
  mkSegment (pt 0 0) (pt 3 0) (pt 7 0) (pt 10 0) None (Some 0%float) (Some 1%nat)
            (Some FAIL_CORNER).

(** The first integer above which binary64 has no odd integers, plus 10. *)
Definition far : Vec float := pt (2 ^ 53 + 10) 0.

End IEEE.

(** ** Exact arithmetic *)

Module Exact.

Import Reals.
Local Open Scope R_scope.

Definition ltb (a b : R) : bool := if Rlt_dec a b then true else false.
Definition eqb (a b : R) : bool := if Req_dec_T a b then true else false.

(** [Math.round]: the integer [n] with [n - 1/2 <= v < n + 1/2]. *)
Definition round (v : R) : R := IZR (up (v - / 2)).

(** [Math.pow] for the exponents the fitter passes, which are naturals. *)
Definition pow (b e : R) : R := b ^ Z.to_nat (Int_part e).

Definition real : Number :=
  Build_Number
    Rplus Rminus Rmult Rdiv Ropp ltb eqb IZR
    (3 / 100) (1 / 10) (9 / 10) (95 / 100)
    PI
    sqrt Rabs round acos Rmax pow
    (fun v => negb (eqb v 0))
    eqb.





(** The vector from the end of [s] back to its point at [t = 0.95]. *)
Definition backOf (s : CurveSegment R) : Vec R :=
  @subVec real (@getPointAlongCurve real s (@lit_0_95 real)) (c3 s).

Definition ahead (s : CurveSegment R) (k : R) : Vec R :=
  mkVec (x (c3 s) - k * x (backOf s)) (y (c3 s) - k * y (backOf s)).

End Exact.

(** * Properties *)

Section Properties.

Context {N : Number}.
Open Scope num_scope.

(** ** The active segment *)

Lemma getLastSegment_push (l : list (CurveSegment num)) (s : CurveSegment num) (m : VDMap num) :
  getLastSegment (mkCurve (l ++ [s]) m) = Some s.
Proof.
  unfold getLastSegment; cbn [segments].
  rewrite map_app. cbn [map]. now rewrite last_last.
Qed.

Lemma getLastSegment_setLast (curve : Curve num) (s : CurveSegment num) :
  getLastSegment (setLastSegment curve s) = Some s.
Proof. apply getLastSegment_push. Qed.

Lemma getLastSegment_split (curve : Curve num) (s : CurveSegment num) :
  getLastSegment curve = Some s ->
  segments curve = removelast (segments curve) ++ [s].
Proof.
  unfold getLastSegment. destruct curve as [l m]; cbn [segments].
  induction l as [|a l IH]; [discriminate|].
  destruct l as [|b l].
  - cbn. now intros [= ->].
  - intros H. change (removelast (a :: b :: l)) with (a :: removelast (b :: l)).
    cbn [app]. f_equal. apply IH. exact H.
Qed.

(** ** The refinement loop *)

Lemma refineLoop_unfold (fuel : nat) (m : VDMap num) (seg : CurveSegment num) (st : nat) :
  refineLoop (S fuel) m seg st =
  if (curveError m (applyForces seg (forceVectors m seg)) <? MAX_ERROR)
     || (MAX_ITERATIONS <? S st)%nat
  then Ok (loopBody m seg st, S st)
  else refineLoop fuel m (loopBody m seg st) (S st).
Proof. reflexivity. Qed.

Lemma loopBody_frame (m : VDMap num) (seg : CurveSegment num) (st : nat) :
  c0 (loopBody m seg st) = c0 seg /\
  c3 (loopBody m seg st) = c3 seg /\
  constrain_to (loopBody m seg st) = constrain_to seg /\
  update_status (loopBody m seg st) = update_status seg /\
  steps (loopBody m seg st) = Some (S st) /\
  error (loopBody m seg st) = Some (curveError m (applyForces seg (forceVectors m seg))).
Proof.
  unfold loopBody, applyForces. destruct (forceVectors m seg) as [f1 f2].
  repeat split.
Qed.

(** The loop counts its turns in [steps]: when it stops, the counter has
    grown, it is at most [MAX_ITERATIONS + 1], and either the recorded error
    is below [MAX_ERROR] or the counter is above [MAX_ITERATIONS]. *)
Lemma refineLoop_result (fuel : nat) (m : VDMap num) :
  forall (seg : CurveSegment num) (st : nat) (seg' : CurveSegment num) (n : nat),
    refineLoop fuel m seg st = Ok (seg', n) ->
    (st < n)%nat /\
    (n <= Nat.max (S st) (S MAX_ITERATIONS))%nat /\
    steps seg' = Some n /\
    (exists e, error seg' = Some e /\
               ((e <? MAX_ERROR) || (MAX_ITERATIONS <? n)%nat) = true) /\
    c0 seg' = c0 seg /\ c3 seg' = c3 seg /\
    constrain_to seg' = constrain_to seg /\
    update_status seg' = update_status seg.
Proof.
  induction fuel as [|fuel IH]; intros seg st seg' n H; [discriminate|].
  rewrite refineLoop_unfold in H.
  destruct (loopBody_frame m seg st) as (F0 & F3 & Fc & Fu & Fs & Fe).
  destruct ((curveError m (applyForces seg (forceVectors m seg)) <? MAX_ERROR)
            || (MAX_ITERATIONS <? S st)%nat) eqn:E.
  - injection H as <- <-.
    repeat split; try assumption; try lia.
    eexists; split; [exact Fe | exact E].
  - apply IH in H. destruct H as (H1 & H2 & H3 & H4 & H5 & H6 & H7 & H8).
    apply orb_false_iff in E. destruct E as [_ E].
    apply Nat.ltb_ge in E.
    repeat split; try lia; try assumption; try congruence.
Qed.


(** More fuel does not change what the loop returns. *)
Lemma refineLoop_fuel (m : VDMap num) :
  forall (fuel fuel' : nat) (seg : CurveSegment num) (st : nat) (r : CurveSegment num * nat),
    refineLoop fuel m seg st = Ok r -> (fuel <= fuel')%nat ->
    refineLoop fuel' m seg st = Ok r.
Proof.
  induction fuel as [|fuel IH]; intros fuel' seg st r H Hle; [discriminate|].
  destruct fuel' as [|fuel']; [lia|].
  rewrite refineLoop_unfold in *.
  destruct ((curveError m (applyForces seg (forceVectors m seg)) <? MAX_ERROR)
            || (MAX_ITERATIONS <? S st)%nat); [assumption|].
  apply IH with (fuel' := fuel') in H; [assumption | lia].
Qed.

(** ** The refinement step, by cases *)

Lemma updateDistanceField_inv (fuel : nat) (curve : Curve num) (p : Vec num)
    (curve' : Curve num) (s' : CurveSegment num) :
  updateDistanceField fuel curve p = Ok (curve', s') ->
  exists segment,
    getLastSegment curve = Some segment /\ Refined fuel curve p segment curve' s'.
Proof.
  unfold updateDistanceField.
  destruct (getLastSegment curve) as [segment|]; [|discriminate].
  intros H. exists segment. split; [reflexivity|].
  destruct (checkCorner segment p) eqn:Hc.
  - injection H as <- <-. now apply refined_corner.
  - destruct (paintStrip fuel (vdmap curve) (getLastPoint segment) p) as [m1|] eqn:H1;
      [|discriminate].
    cbn [bind] in H.
    destruct (paintEndCap fuel m1 p) as [m2|] eqn:H2; [|discriminate].
    cbn [bind] in H.
    destruct (refineLoop fuel m2 (extendSegment segment p) 0) as [[seg n]|] eqn:H3;
      [|discriminate].
    cbn [bind] in H.
    destruct (MAX_ITERATIONS <? n)%nat eqn:Hn; injection H as <- <-.
    + apply Nat.ltb_lt in Hn. now eapply refined_maxed; eauto.
    + apply Nat.ltb_ge in Hn. now eapply refined_success; eauto.
Qed.

(** The segment a refinement step returns is the active segment of the
    curve it leaves. *)
Lemma Refined_last (fuel : nat) (curve : Curve num) (p : Vec num) (segment : CurveSegment num)
    (curve' : Curve num) (s' : CurveSegment num) :
  Refined fuel curve p segment curve' s' -> getLastSegment curve' = Some s'.
Proof.
  intros [? ? ->|? ? ? ? ? ? ? ? ? ? ->|? ? ? ? ? ? ? ? ? ? ->];
    apply getLastSegment_setLast.
Qed.

(** ** Success means a fit within the error bound *)

Lemma status_is_true (s : CurveSegment num) (u : UpdateStatus) :
  status_is s u = true <-> update_status s = Some u.
Proof.
  unfold status_is. destruct (update_status s) as [v|].
  - destruct v, u; cbn; split; congruence.
  - split; discriminate.
Qed.

Lemma Refined_converged (fuel : nat) (curve : Curve num) (p : Vec num) (segment : CurveSegment num)
    (curve' : Curve num) (s' : CurveSegment num) :
  Refined fuel curve p segment curve' s' -> converged s'.
Proof.
  intros [Hc -> _|m1 m2 seg n _ _ _ _ _ -> _|m1 m2 seg n _ _ _ Hl Hn -> _];
    intros Hs; apply status_is_true in Hs; cbn in Hs; try discriminate.
  apply refineLoop_result in Hl.
  destruct Hl as (_ & _ & _ & (e & He & Hb) & _).
  exists e. split; [exact He|].
  apply orb_true_iff in Hb. destruct Hb as [Hb|Hb]; [exact Hb|].
  apply Nat.ltb_lt in Hb. lia.
Qed.

Lemma addToCurveImpl_converged (fuel : nat) (curve : Curve num) (p : Vec num)
    (curve' : Curve num) (s' : CurveSegment num) :
  (forall s, getLastSegment curve = Some s -> converged s) ->
  addToCurveImpl fuel curve p = Ok (curve', s') ->
  getLastSegment curve' = Some s' /\ converged s'.
Proof.
  intros Hinv. unfold addToCurveImpl.
  destruct (getLastSegment curve) as [last_segment|] eqn:Hlast; [|discriminate].
  destruct (getMagnitude p (getLastPoint last_segment) <? RADIAL_SIMPLIFICATION).
  - intros [= <- <-]. split; [exact Hlast | now apply Hinv].
  - intros H. apply updateDistanceField_inv in H. destruct H as (segment & _ & H).
    split; [eapply Refined_last | eapply Refined_converged]; exact H.
Qed.

Lemma addToCurve_converged (fuel : nat) (curve : Curve num) (coord : Vec num)
    (curve' : Curve num) (s' : CurveSegment num) :
  (forall s, getLastSegment curve = Some s -> converged s) ->
  addToCurve fuel curve coord = Ok (curve', s') ->
  getLastSegment curve' = Some s' /\ converged s'.
Proof.
  intros Hinv. unfold addToCurve.
  destruct (addToCurveImpl fuel curve (roundVec coord)) as [[curve1 s1]|] eqn:H1;
    [|discriminate].
  cbn [bind]. apply addToCurveImpl_converged in H1; [|exact Hinv].
  destruct H1 as [Hl1 Hc1].
  destruct (status_is s1 SUCCESS).
  - intros [= <- <-]. now split.
  - intros H2. apply addToCurveImpl_converged in H2; [exact H2|].
    intros s Hs. rewrite Hl1 in Hs. now injection Hs as <-.
Qed.

Lemma addAllToCurve_converged (fuel : nat) (coords : list (Vec num)) :
  forall (curve curve' : Curve num) (returned : list (CurveSegment num)),
    (forall s, getLastSegment curve = Some s -> converged s) ->
    addAllToCurve fuel curve coords = Ok (curve', returned) ->
    Forall converged returned.
Proof.
  induction coords as [|coord rest IH]; intros curve curve' returned Hinv H.
  - injection H as <- <-. constructor.
  - cbn [addAllToCurve] in H.
    destruct (addToCurve fuel curve coord) as [[curve1 s1]|] eqn:H1; [|discriminate].
    cbn [bind] in H.
    destruct (addAllToCurve fuel curve1 rest) as [[curve2 returned2]|] eqn:H2;
      [|discriminate].
    cbn [bind] in H. injection H as <- <-.
    apply addToCurve_converged in H1; [|exact Hinv]. destruct H1 as [Hl1 Hc1].
    constructor; [exact Hc1|].
    eapply IH; [|exact H2].
    intros s Hs. rewrite Hl1 in Hs. now injection Hs as <-.
Qed.

(** C2.  For every stroke (a start point and any sequence of later points),
    every segment that [addToCurve] returns with [update_status] [SUCCESS]
    carries an [error] that is below [MAX_ERROR] (2): none is returned as
    [SUCCESS] with an error of 2 or more. *)
Theorem success_has_error_below_max
    (fuel : nat) (first : Vec num) (rest : list (Vec num))
    (curve : Curve num) (returned : list (CurveSegment num)) (s : CurveSegment num) :
  drawStroke fuel first rest = Ok (curve, returned) ->
  In s returned ->
  update_status s = Some SUCCESS ->
  exists e, error s = Some e /\ (e <? MAX_ERROR) = true.
Proof.
  intros Hrun Hin Hs.
  apply addAllToCurve_converged in Hrun.
  - rewrite Forall_forall in Hrun. apply (Hrun s Hin).
    now apply status_is_true.
  - intros s0 Hs0. cbn in Hs0. injection Hs0 as <-.
    intros H. discriminate H.
Qed.

(** ** Rollback *)

Lemma Vec_eta (v : Vec num) : mkVec (x v) (y v) = v.
Proof. now destruct v. Qed.

Lemma copySegment_controls (segment : CurveSegment num) :
  c0 (copySegment segment) = c0 segment /\
  c1 (copySegment segment) = c1 segment /\
  c2 (copySegment segment) = c2 segment /\
  c3 (copySegment segment) = c3 segment /\
  constrain_to (copySegment segment) = constrain_to segment /\
  error (copySegment segment) = Some (error_or_0 (error segment)).
Proof.
  unfold copySegment; cbn. rewrite !Vec_eta.
  repeat split. destruct (constrain_to segment) as [v|]; [now rewrite Vec_eta | reflexivity].
Qed.

(** C3.  When the refinement loop stops with its counter above
    [MAX_ITERATIONS] (the budget is exhausted), [updateDistanceField]
    returns the segment with [update_status] [FAIL_MAXED] and with its
    control points, [error] and [constrain_to] equal to those of the
    snapshot [copySegment segment] taken before the segment was extended,
    painted and refined; the control points and [constrain_to] are those
    the segment had before the call. *)
Theorem exhausted_budget_restores_snapshot
    (fuel : nat) (curve : Curve num) (p : Vec num) (segment : CurveSegment num)
    (m1 m2 : VDMap num) (seg : CurveSegment num) (n : nat) :
  getLastSegment curve = Some segment ->
  checkCorner segment p = false ->
  paintStrip fuel (vdmap curve) (getLastPoint segment) p = Ok m1 ->
  paintEndCap fuel m1 p = Ok m2 ->
  refineLoop fuel m2 (extendSegment segment p) 0 = Ok (seg, n) ->
  (MAX_ITERATIONS < n)%nat ->
  exists curve' s',
    updateDistanceField fuel curve p = Ok (curve', s') /\
    getLastSegment curve' = Some s' /\
    update_status s' = Some FAIL_MAXED /\
    (let og_controls := copySegment segment in
     c0 s' = c0 og_controls /\ c1 s' = c1 og_controls /\
     c2 s' = c2 og_controls /\ c3 s' = c3 og_controls /\
     error s' = error og_controls /\
     constrain_to s' = constrain_to og_controls) /\
    c0 s' = c0 segment /\ c1 s' = c1 segment /\
    c2 s' = c2 segment /\ c3 s' = c3 segment /\
    constrain_to s' = constrain_to segment.
Proof.
  intros Hlast Hc H1 H2 H3 Hn.
  unfold updateDistanceField. rewrite Hlast, Hc, H1. cbn [bind].
  rewrite H2. cbn [bind]. rewrite H3. cbn [bind].
  apply Nat.ltb_lt in Hn. rewrite Hn.
  do 2 eexists. split; [reflexivity|].
  split; [apply getLastSegment_setLast|].
  destruct (copySegment_controls segment) as (E0 & E1 & E2 & E3 & Ec & Ee).
  cbn [restoreSegment update_status c0 c1 c2 c3 error constrain_to].
  repeat split; assumption.
Qed.

(** ** The orchestrator *)

Lemma addToCurveImpl_duplicate (fuel : nat) (curve : Curve num) (p : Vec num) (s : CurveSegment num) :
  getLastSegment curve = Some s ->
  (getMagnitude p (getLastPoint s) <? RADIAL_SIMPLIFICATION) = true ->
  addToCurveImpl fuel curve p = Ok (curve, s).
Proof.
  intros Hl Hd. unfold addToCurveImpl. now rewrite Hl, Hd.
Qed.

Lemma addToCurveImpl_refines (fuel : nat) (curve : Curve num) (p : Vec num) (s : CurveSegment num) :
  getLastSegment curve = Some s ->
  (getMagnitude p (getLastPoint s) <? RADIAL_SIMPLIFICATION) = false ->
  addToCurveImpl fuel curve p = updateDistanceField fuel (startNewSegment curve s) p.
Proof.
  intros Hl Hd. unfold addToCurveImpl. now rewrite Hl, Hd.
Qed.

(** C10.  If the active segment was left with [FAIL_CORNER] or [FAIL_MAXED]
    and the next point, rounded, is closer than [RADIAL_SIMPLIFICATION] to
    its end, [addToCurve] returns that same segment with the same status
    and leaves the curve as it was: no segment is pushed, the distance map
    is not cleared, and the segment is not changed. *)
Theorem duplicate_point_keeps_stale_failure
    (fuel : nat) (curve : Curve num) (coord : Vec num) (s : CurveSegment num) :
  getLastSegment curve = Some s ->
  update_status s = Some FAIL_CORNER \/ update_status s = Some FAIL_MAXED ->
  (getMagnitude (roundVec coord) (getLastPoint s) <? RADIAL_SIMPLIFICATION) = true ->
  addToCurve fuel curve coord = Ok (curve, s).
Proof.
  intros Hl Hs Hd. unfold addToCurve.
  rewrite (addToCurveImpl_duplicate fuel curve (roundVec coord) Hl Hd). cbn [bind].
  replace (status_is s SUCCESS) with false.
  - now apply addToCurveImpl_duplicate.
  - unfold status_is. now destruct Hs as [-> | ->].
Qed.

(** A refinement step replaces the active segment, keeps its start anchor
    and its constraint, and touches no earlier segment. *)
Lemma Refined_frame (fuel : nat) (curve : Curve num) (p : Vec num) (segment : CurveSegment num)
    (curve' : Curve num) (s' : CurveSegment num) :
  Refined fuel curve p segment curve' s' ->
  segments curve' = removelast (segments curve) ++ [s'] /\
  c0 s' = c0 segment /\
  constrain_to s' = constrain_to segment.
Proof.
  destruct (copySegment_controls segment) as (E0 & _ & _ & _ & Ec & _).
  intros [Hc -> ->|m1 m2 seg n _ _ _ Hl _ -> ->|m1 m2 seg n _ _ _ Hl _ -> ->];
    (split; [reflexivity|]); cbn; try (split; assumption); try (split; reflexivity).
  apply refineLoop_result in Hl.
  destruct Hl as (_ & _ & _ & _ & H0 & _ & Hct & _). now split.
Qed.

(** A refinement step that does not end in [SUCCESS] ends in [FAIL_CORNER]
    or [FAIL_MAXED] and leaves the four control points as they were. *)
Lemma Refined_failure (fuel : nat) (curve : Curve num) (p : Vec num) (segment : CurveSegment num)
    (curve' : Curve num) (s' : CurveSegment num) :
  Refined fuel curve p segment curve' s' ->
  update_status s' <> Some SUCCESS ->
  (update_status s' = Some FAIL_CORNER \/ update_status s' = Some FAIL_MAXED) /\
  c0 s' = c0 segment /\ c1 s' = c1 segment /\
  c2 s' = c2 segment /\ c3 s' = c3 segment.
Proof.
  destruct (copySegment_controls segment) as (E0 & E1 & E2 & E3 & _ & _).
  intros [Hc -> _|m1 m2 seg n _ _ _ _ _ -> _|m1 m2 seg n _ _ _ _ _ -> _] Hs; cbn in *.
  - split; [now left|]. now repeat split.
  - split; [now right|]. now repeat split.
  - now contradiction Hs.
Qed.

(** After a failure the next point opens one segment at the old end point
    and empties the distance map. *)
Lemma startNewSegment_after_failure (curve : Curve num) (last_segment : CurveSegment num) :
  update_status last_segment = Some FAIL_CORNER \/
  update_status last_segment = Some FAIL_MAXED ->
  exists new_segment,
    startNewSegment curve last_segment = mkCurve (segments curve ++ [new_segment]) [] /\
    c0 new_segment = c3 last_segment /\ c1 new_segment = c3 last_segment /\
    c2 new_segment = c3 last_segment /\ c3 new_segment = c3 last_segment /\
    update_status new_segment = None.
Proof.
  unfold startNewSegment, getLastPoint.
  intros [-> | ->]; eexists; (split; [reflexivity|]); cbn; rewrite Vec_eta; now repeat split.
Qed.

Lemma startNewSegment_continues (curve : Curve num) (last_segment : CurveSegment num) :
  update_status last_segment = None \/ update_status last_segment = Some SUCCESS ->
  startNewSegment curve last_segment = curve.
Proof. unfold startNewSegment. now intros [-> | ->]. Qed.

(** C7.  When the first refinement step of an [addToCurve] call returns a
    segment whose status is [SUCCESS], that result is returned and no second
    step is made.  When it returns any other status, a new segment is opened
    and the refinement step is run once more, on the same rounded point; what
    that second step gives (a result or a fault) is what [addToCurve] gives. *)
Theorem failed_attempt_is_retried_once
    (fuel : nat) (curve : Curve num) (coord : Vec num) (last_segment : CurveSegment num)
    (curve1 : Curve num) (s1 : CurveSegment num) :
  getLastSegment curve = Some last_segment ->
  (getMagnitude (roundVec coord) (getLastPoint last_segment) <? RADIAL_SIMPLIFICATION) = false ->
  updateDistanceField fuel (startNewSegment curve last_segment) (roundVec coord)
    = Ok (curve1, s1) ->
  (update_status s1 = Some SUCCESS ->
   addToCurve fuel curve coord = Ok (curve1, s1)) /\
  (update_status s1 <> Some SUCCESS ->
   (exists new_segment,
      startNewSegment curve1 s1 = mkCurve (segments curve1 ++ [new_segment]) []) /\
   addToCurve fuel curve coord
     = updateDistanceField fuel (startNewSegment curve1 s1) (roundVec coord)).
Proof.
  intros Hl Hd H1.
  unfold addToCurve.
  rewrite (addToCurveImpl_refines fuel curve (roundVec coord) Hl Hd), H1. cbn [bind].
  split.
  - intros Hs. apply status_is_true in Hs. now rewrite Hs.
  - intros Hs.
    replace (status_is s1 SUCCESS) with false
      by (symmetry; apply not_true_is_false; now rewrite status_is_true).
    apply updateDistanceField_inv in H1. destruct H1 as (segment & Hseg & HR).
    pose proof (Refined_last HR) as Hl1.
    destruct (Refined_failure HR Hs) as (Hf & _ & _ & _ & E3).
    assert (c3 segment = c3 last_segment) as Eseg.
    { destruct (update_status last_segment) as [[| |]|] eqn:Hu.
      - rewrite startNewSegment_continues in Hseg by now right. congruence.
      - destruct (startNewSegment_after_failure curve last_segment) as (ns & En & _ & _ & _ & E & _);
          [now left|].
        rewrite En, getLastSegment_push in Hseg. congruence.
      - destruct (startNewSegment_after_failure curve last_segment) as (ns & En & _ & _ & _ & E & _);
          [now right|].
        rewrite En, getLastSegment_push in Hseg. congruence.
      - rewrite startNewSegment_continues in Hseg by now left. congruence. }
    split.
    + destruct (startNewSegment_after_failure curve1 s1 Hf) as (ns & En & _). eauto.
    + apply addToCurveImpl_refines; [exact Hl1|].
      unfold getLastPoint in *. now rewrite E3, Eseg.
Qed.

(** C8.  When the corner detector returns true for the rounded point on
    the active segment, the [addToCurve] call marks that segment
    [FAIL_CORNER] without changing its control points, opens exactly one new
    segment, whose four control points are the prior segment's end point,
    and runs the refinement step on it: the curve gains one segment, the
    prior one keeps [c0] to [c3], and the new one is anchored at the prior
    end point. *)
Theorem corner_opens_one_new_segment
    (fuel : nat) (curve : Curve num) (coord : Vec num) (prior : CurveSegment num) :
  getLastSegment curve = Some prior ->
  update_status prior = None \/ update_status prior = Some SUCCESS ->
  (getMagnitude (roundVec coord) (getLastPoint prior) <? RADIAL_SIMPLIFICATION) = false ->
  checkCorner prior (roundVec coord) = true ->
  let marked := set_update_status prior FAIL_CORNER in
  let anchor := getLastPoint prior in
  let opened :=
    mkCurve ((removelast (segments curve) ++ [marked])
             ++ [initCurveSegment (x anchor) (y anchor)]) [] in
  addToCurve fuel curve coord = updateDistanceField fuel opened (roundVec coord) /\
  c0 marked = c0 prior /\ c1 marked = c1 prior /\
  c2 marked = c2 prior /\ c3 marked = c3 prior /\
  forall curve' s',
    addToCurve fuel curve coord = Ok (curve', s') ->
    segments curve' = removelast (segments curve) ++ [marked; s'] /\
    length (segments curve') = S (length (segments curve)) /\
    c0 s' = c3 prior.
Proof.
  intros Hl Hs Hd Hc marked anchor opened.
  assert (addToCurve fuel curve coord = updateDistanceField fuel opened (roundVec coord))
    as Heq.
  { unfold addToCurve.
    rewrite (addToCurveImpl_refines fuel curve (roundVec coord) Hl Hd).
    rewrite (startNewSegment_continues curve prior Hs).
    unfold updateDistanceField at 1. rewrite Hl, Hc. cbn [bind].
    change (status_is (set_update_status prior FAIL_CORNER) SUCCESS) with false.
    cbv iota. fold marked.
    rewrite (addToCurveImpl_refines fuel (setLastSegment curve marked) (roundVec coord)
               (getLastSegment_setLast curve marked) Hd).
    reflexivity. }
  split; [exact Heq|].
  do 4 (split; [reflexivity|]).
  intros curve' s' H. rewrite Heq in H.
  apply updateDistanceField_inv in H. destruct H as (segment & Hseg & HR).
  unfold opened in Hseg. rewrite getLastSegment_push in Hseg. injection Hseg as <-.
  destruct (Refined_frame HR) as (Hsegs & H0 & _).
  cbn [segments opened] in Hsegs. rewrite removelast_last in Hsegs.
  rewrite <- app_assoc in Hsegs. cbn [app] in Hsegs.
  split; [exact Hsegs|]. split.
  - rewrite Hsegs. apply getLastSegment_split in Hl.
    apply (f_equal (@length _)) in Hl. rewrite length_app in *. cbn in *. lia.
  - rewrite H0. cbn. apply Vec_eta.
Qed.

(** ** The corner detector *)

Lemma checkCorner_degenerate (segment : CurveSegment num) (point : Vec num) :
  equalVec (c0 segment) (c3 segment) = true -> checkCorner segment point = false.
Proof. unfold checkCorner. now intros ->. Qed.

(** C4, as amended.  On a segment whose start and end coincide the detector
    reports no corner.  Otherwise it reports a corner exactly when the angle
    is below [MAX_CORNER_ANGLE] (80 degrees), the angle being the arc cosine,
    in degrees, of the dot product of two unit vectors: the one from the
    segment's end point to the curve point at [t = 0.95] (it points back
    along the curve), and the one from the end point to the candidate. *)
Theorem corner_iff_angle_below_threshold (segment : CurveSegment num) (point : Vec num) :
  (equalVec (c0 segment) (c3 segment) = true -> checkCorner segment point = false) /\
  (equalVec (c0 segment) (c3 segment) = false ->
   let back := getUnitVector (subVec (getPointAlongCurve segment lit_0_95) (c3 segment)) in
   let ahead :=
     getUnitVector (mkVec (x point - x (c3 segment)) (y point - y (c3 segment))) in
   let angle := radiansToDegrees (Math_acos (dotProduct back ahead)) in
   (checkCorner segment point = true <-> (angle <? MAX_CORNER_ANGLE) = true)).
Proof.
  split; [apply checkCorner_degenerate|].
  unfold checkCorner. intros ->.
  cbn [SHOULD_USE_NEW_CORNER_FINDER]. cbv zeta.
  destruct (_ <? MAX_CORNER_ANGLE); split; congruence.
Qed.

(** ** The closer-wins rule *)

Lemma assoc_get_set {V : Type} (k : num) (v : V) (l : list (num * V)) :
  same_key k k = true -> assoc_get k (assoc_set k v l) = Some v.
Proof.
  intros Hk. induction l as [|[k' v'] l IH]; cbn.
  - now rewrite Hk.
  - destruct (same_key k k') eqn:E; cbn; now rewrite E.
Qed.

Lemma vdmap_get_storeCloser (m : VDMap num) (p val : Vec num) :
  (forall k, same_key k k = true) ->
  vdmap_get (storeCloser m p val) p =
  Some match vdmap_get m p with
       | None => val
       | Some stored =>
           if sumOfSquaresVec stored <? sumOfSquaresVec val then stored else val
       end.
Proof.
  intros Hk. unfold vdmap_get, storeCloser.
  rewrite assoc_get_set by apply Hk. rewrite assoc_get_set by apply Hk.
  destruct (assoc_get (x p) m) as [col|]; reflexivity.
Qed.

(** C6, as amended.  Each turn of the strip loop and of the end-cap loop
    writes its pixel through [storeCloser]; after the write the pixel holds
    the candidate, unless it held a value whose sum of squares is strictly
    below the candidate's, which is kept.  On a tie the candidate replaces
    what was stored. *)
Theorem closer_wins_and_ties_replace
    (Hkey : forall k, same_key k k = true) (m : VDMap num) :
  (forall p val,
     vdmap_get (storeCloser m p val) p =
     Some match vdmap_get m p with
          | None => val
          | Some stored =>
              if sumOfSquaresVec stored <? sumOfSquaresVec val then stored else val
          end) /\
  (forall p val stored,
     vdmap_get m p = Some stored ->
     (sumOfSquaresVec stored <? sumOfSquaresVec val) = false ->
     vdmap_get (storeCloser m p val) p = Some val) /\
  (forall fuel j vert_steps vert_increment current_location current_val,
     (j <? vert_steps) = true ->
     stripColumn (S fuel) j vert_steps vert_increment m current_location current_val =
     stripColumn fuel (j + #1) vert_steps vert_increment
       (storeCloser m (roundVec current_location) (roundVec current_val))
       (addVec current_location vert_increment) (addVec current_val vert_increment)) /\
  (forall fuel px py bottom current_point,
     (py <? bottom) = true ->
     capColumn (S fuel) px py bottom current_point m =
     capColumn fuel px (py + #1) bottom current_point
       (storeCloser m (mkVec px py) (subVec (mkVec px py) current_point))).
Proof.
  split; [|split; [|split]].
  - intros p val. now apply vdmap_get_storeCloser.
  - intros p val stored Hs Hlt.
    rewrite vdmap_get_storeCloser by assumption. now rewrite Hs, Hlt.
  - intros. cbn [stripColumn]. now rewrite H.
  - intros. cbn [capColumn]. now rewrite H.
Qed.

(** ** The continuity constraint *)








(** ** The shape of the curve *)

Lemma status_cases (s : CurveSegment num) :
  (update_status s = None \/ update_status s = Some SUCCESS) \/ failed s.
Proof.
  unfold failed. destruct (update_status s) as [[| |]|]; auto.
Qed.

(** What [startNewSegment] gives, by the status of the active segment. *)
Lemma startNewSegment_cases (curve : Curve num) (last_segment : CurveSegment num) :
  getLastSegment curve = Some last_segment ->
  exists segment,
    getLastSegment (startNewSegment curve last_segment) = Some segment /\
    (((update_status last_segment = None \/ update_status last_segment = Some SUCCESS) /\
      startNewSegment curve last_segment = curve /\ segment = last_segment) \/
     (failed last_segment /\
      startNewSegment curve last_segment = mkCurve (segments curve ++ [segment]) [] /\
      c0 segment = c3 last_segment /\ c1 segment = c3 last_segment /\
      c2 segment = c3 last_segment /\ c3 segment = c3 last_segment /\
      update_status segment = None)).
Proof.
  intros Hl. destruct (status_cases last_segment) as [Hs|Hs].
  - exists last_segment. rewrite (startNewSegment_continues curve last_segment Hs).
    split; [exact Hl|]. left. now repeat split.
  - destruct (startNewSegment_after_failure curve last_segment Hs)
      as (ns & En & E0 & E1 & E2 & E3 & Eu).
    exists ns. rewrite En. split; [apply getLastSegment_push|].
    right. now repeat split.
Qed.

(** A returning call of [addToCurveImpl] dropped the point, or refined the
    active segment of the curve that [startNewSegment] left. *)
Lemma addToCurveImpl_inv (fuel : nat) (curve : Curve num) (p : Vec num)
    (curve' : Curve num) (s' : CurveSegment num) :
  addToCurveImpl fuel curve p = Ok (curve', s') ->
  exists last_segment,
    getLastSegment curve = Some last_segment /\
    ((tooClose p last_segment = true /\ curve' = curve /\ s' = last_segment) \/
     (tooClose p last_segment = false /\
      exists segment,
        getLastSegment (startNewSegment curve last_segment) = Some segment /\
        Refined fuel (startNewSegment curve last_segment) p segment curve' s')).
Proof.
  unfold addToCurveImpl, tooClose.
  destruct (getLastSegment curve) as [last_segment|]; [|discriminate].
  intros H. exists last_segment. split; [reflexivity|].
  destruct (getMagnitude p (getLastPoint last_segment) <? RADIAL_SIMPLIFICATION).
  - injection H as <- <-. left. now repeat split.
  - right. split; [reflexivity|]. now apply updateDistanceField_inv.
Qed.

(** The segments after a returning call of [addToCurveImpl]: the active
    segment was replaced, or it had failed and one segment was pushed behind
    it. *)
Lemma addToCurveImpl_segments (fuel : nat) (curve : Curve num) (p : Vec num)
    (curve' : Curve num) (s' last_segment : CurveSegment num) :
  getLastSegment curve = Some last_segment ->
  addToCurveImpl fuel curve p = Ok (curve', s') ->
  getLastSegment curve' = Some s' /\
  ((segments curve' = removelast (segments curve) ++ [s'] /\
    c0 s' = c0 last_segment) \/
   (segments curve' = segments curve ++ [s'] /\
    failed last_segment /\ c0 s' = c3 last_segment)).
Proof.
  intros Hl H. apply addToCurveImpl_inv in H.
  destruct H as (l & Hl' & H). rewrite Hl in Hl'. injection Hl' as <-.
  destruct H as [(_ & -> & ->)|(_ & segment & Hseg & HR)].
  - split; [exact Hl|]. left. split; [now apply getLastSegment_split | reflexivity].
  - split; [exact (Refined_last HR)|].
    destruct (Refined_frame HR) as (Hsegs & H0 & _).
    destruct (startNewSegment_cases curve Hl) as (segment' & Hseg' & Hc).
    rewrite Hseg in Hseg'. injection Hseg' as <-.
    destruct Hc as [(_ & Hcont & ->)|(Hf & Hopen & E0 & _)].
    + left. rewrite Hcont in Hsegs. now split.
    + right. rewrite Hopen in Hsegs. cbn [segments] in Hsegs.
      rewrite removelast_last in Hsegs. repeat split; congruence.
Qed.

Lemma removelast_snoc_length (A : Type) (l : list A) (a : A) :
  l = removelast l ++ [a] -> length l = S (length (removelast l)).
Proof.
  intros H. apply (f_equal (@length _)) in H.
  rewrite length_app in H. cbn in H. lia.
Qed.

(** X1.  A call of [addToCurve] that returns changes only the tail of
    [curve.segments]: the segments before the active one are left as they
    were; behind them come the segments the call closed, at most two, each
    marked [FAIL_CORNER] or [FAIL_MAXED]; and last comes the segment that is
    returned.  The curve never gets shorter, and it grows by the number of
    segments closed. *)
Theorem only_the_tail_of_the_curve_changes
    (fuel : nat) (curve : Curve num) (coord : Vec num)
    (curve' : Curve num) (s' : CurveSegment num) :
  addToCurve fuel curve coord = Ok (curve', s') ->
  getLastSegment curve' = Some s' /\
  exists closed,
    segments curve' = removelast (segments curve) ++ closed ++ [s'] /\
    (length closed <= 2)%nat /\
    Forall failed closed /\
    length (segments curve') = (length (segments curve) + length closed)%nat.
Proof.
  unfold addToCurve. intros H.
  destruct (addToCurveImpl fuel curve (roundVec coord)) as [[curve1 s1]|] eqn:H1;
    [|discriminate].
  cbn [bind] in H.
  assert (exists l, getLastSegment curve = Some l) as [l Hl].
  { apply addToCurveImpl_inv in H1. destruct H1 as (l & Hl & _). now exists l. }
  pose proof (getLastSegment_split _ Hl) as Hsplit.
  destruct (addToCurveImpl_segments _ _ _ Hl H1) as (Hl1 & Hs1).
  assert (exists closed1,
            segments curve1 = removelast (segments curve) ++ closed1 ++ [s1] /\
            (length closed1 <= 1)%nat /\ Forall failed closed1) as (closed1 & E1 & L1 & F1).
  { destruct Hs1 as [(E & _)|(E & Hf & _)].
    - exists []. cbn. split; [exact E|]. split; [lia | constructor].
    - exists [l]. rewrite E. cbn. split; [|split; [lia | constructor; [exact Hf | constructor]]].
      rewrite Hsplit at 1. now rewrite <- app_assoc. }
  destruct (status_is s1 SUCCESS) eqn:Hst.
  - injection H as <- <-. split; [exact Hl1|].
    exists closed1. split; [exact E1|]. split; [lia|]. split; [exact F1|].
    pose proof (@removelast_snoc_length _ _ _ Hsplit) as Hlen.
    rewrite E1, !length_app. cbn. lia.
  - destruct (addToCurveImpl_segments _ _ _ Hl1 H) as (Hl2 & Hs2).
    split; [exact Hl2|].
    assert (removelast (segments curve1) = removelast (segments curve) ++ closed1) as Erl.
    { rewrite E1, app_assoc. apply removelast_last. }
    destruct Hs2 as [(E & _)|(E & Hf & _)].
    + exists closed1. rewrite E, Erl, <- app_assoc.
      split; [reflexivity|]. split; [lia|]. split; [exact F1|].
      pose proof (@removelast_snoc_length _ _ _ Hsplit) as Hlen.
      rewrite !length_app. cbn. lia.
    + exists (closed1 ++ [s1]). rewrite E, E1, <- !app_assoc.
      split; [reflexivity|]. split; [rewrite length_app; cbn; lia|].
      split; [apply Forall_app; split; [exact F1 | constructor; [exact Hf | constructor]]|].
      pose proof (@removelast_snoc_length _ _ _ Hsplit) as Hlen.
      rewrite !length_app. cbn. lia.
Qed.

(** ** The segments of a stroke *)

Lemma chained_replace_last (l : list (CurveSegment num)) (a b : CurveSegment num) :
  chained (l ++ [a]) -> c0 b = c0 a -> chained (l ++ [b]).
Proof.
  intros Hc E0 pre u v post E.
  destruct (exists_last (l := u :: v :: post)) as (front & z & Ez); [discriminate|].
  destruct post as [|w post].
  - change (pre ++ [u; v]) with (pre ++ [u] ++ [v]) in E. rewrite app_assoc in E.
    apply app_inj_tail in E. destruct E as [-> <-].
    rewrite E0. apply (Hc pre u a []). now rewrite <- app_assoc.
  - destruct (exists_last (l := w :: post)) as (mid & z' & Ez'); [discriminate|].
    rewrite Ez' in E.
    change (pre ++ u :: v :: mid ++ [z']) with (pre ++ (u :: v :: mid) ++ [z']) in E.
    rewrite app_assoc in E. apply app_inj_tail in E. destruct E as [-> _].
    apply (Hc pre u v (mid ++ [a])). now rewrite <- app_assoc.
Qed.

Lemma chained_push (l : list (CurveSegment num)) (a b : CurveSegment num) :
  chained (l ++ [a]) -> c0 b = c3 a -> chained ((l ++ [a]) ++ [b]).
Proof.
  intros Hc E0 pre u v post E.
  destruct post as [|w post].
  - change (pre ++ [u; v]) with (pre ++ [u] ++ [v]) in E. rewrite app_assoc in E.
    apply app_inj_tail in E. destruct E as [E <-].
    apply app_inj_tail in E. destruct E as [_ <-]. exact E0.
  - destruct (exists_last (l := w :: post)) as (mid & z' & Ez'); [discriminate|].
    rewrite Ez' in E.
    change (pre ++ u :: v :: mid ++ [z']) with (pre ++ (u :: v :: mid) ++ [z']) in E.
    rewrite app_assoc in E. apply app_inj_tail in E. destruct E as [E _].
    apply (Hc pre u v mid). exact E.
Qed.

Lemma startsAt_replace_last (start : Vec num) (l : list (CurveSegment num))
    (a b : CurveSegment num) :
  startsAt start (l ++ [a]) -> c0 b = c0 a -> startsAt start (l ++ [b]).
Proof. destruct l as [|u l]; cbn; congruence. Qed.

Lemma startsAt_push (start : Vec num) (l : list (CurveSegment num)) (b : CurveSegment num) :
  startsAt start l -> startsAt start (l ++ [b]).
Proof. destruct l as [|u l]; cbn; [contradiction | trivial]. Qed.

Lemma addToCurveImpl_wellFormed (start : Vec num) (fuel : nat) (curve : Curve num)
    (p : Vec num) (curve' : Curve num) (s' : CurveSegment num) :
  wellFormed start curve ->
  addToCurveImpl fuel curve p = Ok (curve', s') ->
  wellFormed start curve'.
Proof.
  intros (Hs & Hc & Hf) H.
  assert (exists l, getLastSegment curve = Some l) as [l Hl].
  { apply addToCurveImpl_inv in H. destruct H as (l & Hl & _). now exists l. }
  pose proof (getLastSegment_split _ Hl) as Hsplit.
  destruct (addToCurveImpl_segments _ _ _ Hl H) as (_ & [(E & E0)|(E & Hfl & E0)]).
  - unfold wellFormed. rewrite E, removelast_last. rewrite Hsplit in Hs, Hc.
    split; [eapply startsAt_replace_last; eassumption|].
    split; [eapply chained_replace_last; eassumption | exact Hf].
  - unfold wellFormed. rewrite E, removelast_last.
    split; [now apply startsAt_push|]. split.
    + rewrite Hsplit. apply chained_push; [now rewrite <- Hsplit | exact E0].
    + rewrite Hsplit. apply Forall_app. split; [exact Hf|].
      constructor; [exact Hfl | constructor].
Qed.

Lemma addToCurve_wellFormed (start : Vec num) (fuel : nat) (curve : Curve num)
    (coord : Vec num) (curve' : Curve num) (s' : CurveSegment num) :
  wellFormed start curve ->
  addToCurve fuel curve coord = Ok (curve', s') ->
  wellFormed start curve'.
Proof.
  intros Hw. unfold addToCurve.
  destruct (addToCurveImpl fuel curve (roundVec coord)) as [[curve1 s1]|] eqn:H1;
    [|discriminate].
  cbn [bind]. apply (addToCurveImpl_wellFormed _ _ Hw) in H1.
  destruct (status_is s1 SUCCESS).
  - now intros [= <- <-].
  - intros H2. eapply addToCurveImpl_wellFormed; eassumption.
Qed.

Lemma addAllToCurve_wellFormed (start : Vec num) (fuel : nat) (coords : list (Vec num)) :
  forall (curve curve' : Curve num) (returned : list (CurveSegment num)),
    wellFormed start curve ->
    addAllToCurve fuel curve coords = Ok (curve', returned) ->
    wellFormed start curve'.
Proof.
  induction coords as [|coord rest IH]; intros curve curve' returned Hw H.
  - now injection H as <- <-.
  - cbn [addAllToCurve] in H.
    destruct (addToCurve fuel curve coord) as [[curve1 s1]|] eqn:H1; [|discriminate].
    cbn [bind] in H.
    destruct (addAllToCurve fuel curve1 rest) as [[curve2 returned2]|] eqn:H2;
      [|discriminate].
    cbn [bind] in H. injection H as <- <-.
    eapply IH; [|exact H2]. eapply addToCurve_wellFormed; eassumption.
Qed.

Lemma startCurve_wellFormed (first : Vec num) : wellFormed (roundVec first) (startCurve first).
Proof.
  unfold wellFormed, startCurve, createCurve. cbn.
  split; [reflexivity|]. split; [|constructor].
  intros pre a b post E. destruct pre as [|u [|v pre]]; discriminate.
Qed.

(** X2.  After every stroke the segments form a connected chain: the
    first segment starts at the rounded start point, and every later segment
    starts ([c0]) where the one before it ends ([c3]). *)
Theorem stroke_is_a_connected_chain
    (fuel : nat) (first : Vec num) (rest : list (Vec num))
    (curve : Curve num) (returned : list (CurveSegment num)) :
  drawStroke fuel first rest = Ok (curve, returned) ->
  (exists s l, segments curve = s :: l /\ c0 s = roundVec first) /\
  (forall pre a b post, segments curve = pre ++ a :: b :: post -> c0 b = c3 a).
Proof.
  intros H. apply (addAllToCurve_wellFormed _ _ (startCurve_wellFormed first)) in H.
  destruct H as (Hs & Hc & _). split; [|exact Hc].
  unfold startsAt in Hs. destruct (segments curve) as [|s l]; [contradiction|].
  now exists s, l.
Qed.

(** X3.  After every stroke, every segment but the last is marked
    [FAIL_CORNER] or [FAIL_MAXED]: a segment is closed only by a failure, and
    only the last segment of the curve can be unset or [SUCCESS]. *)
Theorem only_the_last_segment_is_open
    (fuel : nat) (first : Vec num) (rest : list (Vec num))
    (curve : Curve num) (returned : list (CurveSegment num)) (s : CurveSegment num) :
  drawStroke fuel first rest = Ok (curve, returned) ->
  In s (removelast (segments curve)) ->
  update_status s = Some FAIL_CORNER \/ update_status s = Some FAIL_MAXED.
Proof.
  intros H Hin. apply (addAllToCurve_wellFormed _ _ (startCurve_wellFormed first)) in H.
  destruct H as (_ & _ & Hf). rewrite Forall_forall in Hf. now apply Hf.
Qed.

(** ** Faults *)

Lemma stripColumn_fault (fuel : nat) :
  forall j vert_steps vert_increment m current_location current_val e,
    stripColumn fuel j vert_steps vert_increment m current_location current_val = Err e ->
    e = OutOfFuel.
Proof.
  induction fuel as [|fuel IH]; intros j vs vi m loc val e; cbn [stripColumn];
    destruct (j <? vs); try discriminate.
  - now intros [= <-].
  - apply IH.
Qed.

Lemma stripRows_fault (inner fuel : nat) :
  forall i horiz_steps horiz_increment vert_steps vert_increment dist m location e,
    stripRows fuel inner i horiz_steps horiz_increment vert_steps vert_increment dist m
      location = Err e ->
    e = OutOfFuel.
Proof.
  induction fuel as [|fuel IH]; intros i hs hi vs vi dist m loc e; cbn [stripRows];
    destruct (i <? hs); try discriminate.
  - now intros [= <-].
  - destruct (stripColumn inner #0 vs vi m loc dist) as [m'|f] eqn:Hc; cbn [bind].
    + apply IH.
    + intros [= <-]. exact (stripColumn_fault _ _ _ _ _ _ _ Hc).
Qed.

Lemma capColumn_fault (fuel : nat) :
  forall px py bottom current_point m e,
    capColumn fuel px py bottom current_point m = Err e -> e = OutOfFuel.
Proof.
  induction fuel as [|fuel IH]; intros px py bottom cp m e; cbn [capColumn];
    destruct (py <? bottom); try discriminate.
  - now intros [= <-].
  - apply IH.
Qed.

Lemma capRows_fault (inner fuel : nat) :
  forall px right top bottom current_point m e,
    capRows fuel inner px right top bottom current_point m = Err e -> e = OutOfFuel.
Proof.
  induction fuel as [|fuel IH]; intros px right top bottom cp m e; cbn [capRows];
    destruct (px <? right); try discriminate.
  - now intros [= <-].
  - destruct (capColumn inner px top bottom cp m) as [m'|f] eqn:Hc; cbn [bind].
    + apply IH.
    + intros [= <-]. exact (capColumn_fault _ _ _ _ _ _ Hc).
Qed.

Lemma refineLoop_fault (m : VDMap num) (fuel : nat) :
  forall segment st e, refineLoop fuel m segment st = Err e -> e = OutOfFuel.
Proof.
  induction fuel as [|fuel IH]; intros segment st e.
  - now intros [= <-].
  - rewrite refineLoop_unfold. destruct (_ || _); [discriminate | apply IH].
Qed.

(** On a curve that has a segment, the refinement step does not throw. *)
Lemma updateDistanceField_fault (fuel : nat) (curve : Curve num) (p : Vec num)
    (segment : CurveSegment num) (e : Fault) :
  getLastSegment curve = Some segment ->
  updateDistanceField fuel curve p = Err e -> e = OutOfFuel.
Proof.
  intros Hl. unfold updateDistanceField. rewrite Hl.
  destruct (checkCorner segment p); [discriminate|].
  unfold paintStrip, paintEndCap.
  destruct (stripRows _ _ _ _ _ _ _ _ _ _) as [m1|f] eqn:H1; cbn [bind];
    [|intros [= <-]; exact (stripRows_fault _ _ _ _ _ _ _ _ _ _ H1)].
  destruct (capRows _ _ _ _ _ _ _ _) as [m2|f] eqn:H2; cbn [bind];
    [|intros [= <-]; exact (capRows_fault _ _ _ _ _ _ _ _ H2)].
  destruct (refineLoop _ _ _ _) as [[seg n]|f] eqn:H3; cbn [bind];
    [discriminate | intros [= <-]; exact (refineLoop_fault _ _ _ _ H3)].
Qed.

Lemma addToCurveImpl_fault (fuel : nat) (curve : Curve num) (p : Vec num)
    (last_segment : CurveSegment num) (e : Fault) :
  getLastSegment curve = Some last_segment ->
  addToCurveImpl fuel curve p = Err e -> e = OutOfFuel.
Proof.
  intros Hl. unfold addToCurveImpl. rewrite Hl.
  destruct (_ <? _); [discriminate|].
  destruct (startNewSegment_cases curve Hl) as (segment & Hseg & _).
  now apply updateDistanceField_fault with (segment := segment).
Qed.

Lemma addToCurve_fault (fuel : nat) (curve : Curve num) (coord : Vec num)
    (last_segment : CurveSegment num) (e : Fault) :
  getLastSegment curve = Some last_segment ->
  addToCurve fuel curve coord = Err e -> e = OutOfFuel.
Proof.
  intros Hl. unfold addToCurve.
  destruct (addToCurveImpl fuel curve (roundVec coord)) as [[curve1 s1]|f] eqn:H1;
    cbn [bind].
  - destruct (addToCurveImpl_segments _ _ _ Hl H1) as (Hl1 & _).
    destruct (status_is s1 SUCCESS); [discriminate|].
    now apply addToCurveImpl_fault with (last_segment := s1).
  - intros [= <-]. exact (addToCurveImpl_fault _ _ _ Hl H1).
Qed.

Lemma addToCurve_last (fuel : nat) (curve : Curve num) (coord : Vec num)
    (curve' : Curve num) (s' : CurveSegment num) :
  addToCurve fuel curve coord = Ok (curve', s') -> getLastSegment curve' = Some s'.
Proof.
  unfold addToCurve.
  destruct (addToCurveImpl fuel curve (roundVec coord)) as [[curve1 s1]|] eqn:H1;
    [|discriminate].
  cbn [bind].
  assert (getLastSegment curve1 = Some s1) as Hl1.
  { destruct (addToCurveImpl_inv _ _ _ H1) as (l & Hl & _).
    exact (proj1 (addToCurveImpl_segments _ _ _ Hl H1)). }
  destruct (status_is s1 SUCCESS).
  - now intros [= <- <-].
  - intros H2. exact (proj1 (addToCurveImpl_segments _ _ _ Hl1 H2)).
Qed.

Lemma addAllToCurve_fault (fuel : nat) (coords : list (Vec num)) :
  forall (curve : Curve num) (last_segment : CurveSegment num) (e : Fault),
    getLastSegment curve = Some last_segment ->
    addAllToCurve fuel curve coords = Err e -> e = OutOfFuel.
Proof.
  induction coords as [|coord rest IH]; intros curve last_segment e Hl; [discriminate|].
  cbn [addAllToCurve].
  destruct (addToCurve fuel curve coord) as [[curve1 s1]|f] eqn:H1; cbn [bind].
  - apply addToCurve_last in H1.
    destruct (addAllToCurve fuel curve1 rest) as [[curve2 returned2]|f] eqn:H2; cbn [bind];
      [discriminate|].
    intros [= <-]. exact (IH _ _ _ H1 H2).
  - intros [= <-]. exact (addToCurve_fault _ _ _ Hl H1).
Qed.

(** X4.  After [startCurve], no sequence of [addToCurve] calls throws:
    the active segment is defined whenever it is read.  (A stroke can fail
    to return only by a rendering loop that is still running when the fuel is
    spent.) *)
Theorem stroke_never_throws (fuel : nat) (first : Vec num) (rest : list (Vec num)) :
  drawStroke fuel first rest <> Err TypeError.
Proof.
  intros H. apply addAllToCurve_fault with (last_segment := initCurveSegment
    (x (roundVec first)) (y (roundVec first))) in H; [discriminate | reflexivity].
Qed.

(** ** Duplicate points *)

Lemma addToCurve_duplicate (fuel : nat) (curve : Curve num) (coord : Vec num)
    (s : CurveSegment num) :
  getLastSegment curve = Some s ->
  tooClose (roundVec coord) s = true ->
  addToCurve fuel curve coord = Ok (curve, s).
Proof.
  intros Hl Hd. unfold addToCurve.
  rewrite (addToCurveImpl_duplicate fuel curve (roundVec coord) Hl Hd). cbn [bind].
  destruct (status_is s SUCCESS); [reflexivity|].
  now apply addToCurveImpl_duplicate.
Qed.

(** X5.  Points whose rounded position is closer than
    [RADIAL_SIMPLIFICATION] to the end of the active segment are dropped,
    whatever the status of that segment: any number of them in a row leave
    the curve as it was, and each call returns the active segment. *)
Theorem points_within_the_radius_are_ignored
    (fuel : nat) (curve : Curve num) (s : CurveSegment num) (coords : list (Vec num)) :
  getLastSegment curve = Some s ->
  Forall (fun coord => tooClose (roundVec coord) s = true) coords ->
  addAllToCurve fuel curve coords = Ok (curve, map (fun _ => s) coords).
Proof.
  intros Hl Hall. induction Hall as [|coord rest Hd _ IH]; [reflexivity|].
  cbn [addAllToCurve map].
  rewrite (addToCurve_duplicate fuel curve coord Hl Hd). cbn [bind].
  now rewrite IH.
Qed.

(** The end point of a segment that a refinement step fitted is the point
    it was given. *)
Lemma Refined_success_end (fuel : nat) (curve : Curve num) (p : Vec num)
    (segment : CurveSegment num) (curve' : Curve num) (s' : CurveSegment num) :
  Refined fuel curve p segment curve' s' ->
  update_status s' = Some SUCCESS -> c3 s' = p.
Proof.
  intros [_ -> _|m1 m2 seg n _ _ _ _ _ -> _|m1 m2 seg n _ _ _ Hl _ -> _] Hs;
    cbn in Hs; try discriminate.
  apply refineLoop_result in Hl. destruct Hl as (_ & _ & _ & _ & _ & E3 & _).
  cbn. rewrite E3. cbn. apply Vec_eta.
Qed.

Lemma addToCurveImpl_success_end (fuel : nat) (curve : Curve num) (p : Vec num)
    (curve' : Curve num) (s' : CurveSegment num) :
  addToCurveImpl fuel curve p = Ok (curve', s') ->
  update_status s' = Some SUCCESS ->
  tooClose p s' = true \/ c3 s' = p.
Proof.
  intros H Hs. apply addToCurveImpl_inv in H.
  destruct H as (l & Hl & [(Hd & _ & ->)|(_ & segment & _ & HR)]).
  - now left.
  - right. exact (Refined_success_end HR Hs).
Qed.

(** X6.  Sending again the point that [addToCurve] has just fitted
    changes nothing: when a call returns a segment with [SUCCESS], the same
    call on the curve it left returns that curve and that segment.  The
    rounded point is taken to be closer than [RADIAL_SIMPLIFICATION] to
    itself, as every point with finite coordinates is. *)
Theorem fitted_point_sent_again_changes_nothing
    (fuel : nat) (curve : Curve num) (coord : Vec num)
    (curve' : Curve num) (s' : CurveSegment num) :
  (getMagnitude (roundVec coord) (roundVec coord) <? RADIAL_SIMPLIFICATION) = true ->
  addToCurve fuel curve coord = Ok (curve', s') ->
  update_status s' = Some SUCCESS ->
  addToCurve fuel curve' coord = Ok (curve', s').
Proof.
  intros Hself H Hs.
  pose proof (addToCurve_last _ _ _ H) as Hl'.
  apply addToCurve_duplicate; [exact Hl'|].
  unfold addToCurve in H.
  destruct (addToCurveImpl fuel curve (roundVec coord)) as [[curve1 s1]|] eqn:H1;
    [|discriminate].
  cbn [bind] in H.
  assert (forall c c1, addToCurveImpl fuel c (roundVec coord) = Ok (c1, s') ->
                       tooClose (roundVec coord) s' = true) as Hend.
  { intros c c1 Hc. destruct (addToCurveImpl_success_end _ _ _ Hc Hs) as [Hd|E3];
      [exact Hd|].
    unfold tooClose, getLastPoint. now rewrite E3. }
  destruct (status_is s1 SUCCESS).
  - injection H as <- <-. exact (Hend _ _ H1).
  - exact (Hend _ _ H).
Qed.

(** ** What a call returns for a point that is not dropped *)

(** A refinement step on a segment whose start and end coincide either
    fits it, ending at the point, or gives it up at the iteration bound and
    leaves it as it was. *)
Lemma Refined_degenerate (fuel : nat) (curve : Curve num) (p : Vec num)
    (segment : CurveSegment num) (curve' : Curve num) (s' : CurveSegment num) :
  equalVec (c0 segment) (c3 segment) = true ->
  Refined fuel curve p segment curve' s' ->
  (update_status s' = Some SUCCESS /\ c3 s' = p) \/
  (update_status s' = Some FAIL_MAXED /\
   c0 s' = c0 segment /\ c1 s' = c1 segment /\
   c2 s' = c2 segment /\ c3 s' = c3 segment).
Proof.
  intros Heq HR.
  destruct (status_cases s') as [[Hn|Hs]|[Hf|Hf]].
  - destruct HR as [_ -> _|m1 m2 seg n _ _ _ _ _ -> _|m1 m2 seg n _ _ _ _ _ -> _];
      discriminate Hn.
  - left. split; [exact Hs | exact (Refined_success_end HR Hs)].
  - exfalso. destruct HR as [Hc _ _|m1 m2 seg n _ _ _ _ _ -> _|m1 m2 seg n _ _ _ _ _ -> _];
      try discriminate Hf.
    rewrite (checkCorner_degenerate segment p Heq) in Hc. discriminate Hc.
  - right. split; [exact Hf|].
    apply (Refined_failure HR). rewrite Hf. discriminate.
Qed.

(** X7.  For a point that is not dropped as a duplicate, [addToCurve]
    returns a segment with [SUCCESS] that ends at the rounded point, or a
    segment with [FAIL_MAXED] whose four control points are the end point of
    the segment that was active before the call.  It never returns
    [FAIL_CORNER]: a segment that has just been opened passes the corner
    test.  (The coordinates of that end point are taken equal to
    themselves, as every Number but NaN is.) *)
Theorem accepted_point_is_fitted_or_given_up
    (fuel : nat) (curve : Curve num) (coord : Vec num) (last_segment : CurveSegment num)
    (curve' : Curve num) (s' : CurveSegment num) :
  getLastSegment curve = Some last_segment ->
  tooClose (roundVec coord) last_segment = false ->
  equalVec (c3 last_segment) (c3 last_segment) = true ->
  addToCurve fuel curve coord = Ok (curve', s') ->
  (update_status s' = Some SUCCESS /\ c3 s' = roundVec coord) \/
  (update_status s' = Some FAIL_MAXED /\
   c0 s' = c3 last_segment /\ c1 s' = c3 last_segment /\
   c2 s' = c3 last_segment /\ c3 s' = c3 last_segment).
Proof.
  intros Hl Hd Heq H. unfold addToCurve in H.
  destruct (addToCurveImpl fuel curve (roundVec coord)) as [[curve1 s1]|] eqn:H1;
    [|discriminate].
  cbn [bind] in H.
  destruct (addToCurveImpl_inv _ _ _ H1) as (l & Hl' & H1').
  rewrite Hl in Hl'. injection Hl' as <-.
  destruct H1' as [(Hd' & _)|(_ & segment & Hseg & HR)]; [congruence|].
  pose proof (Refined_last HR) as Hl1.
  assert (c3 segment = c3 last_segment) as E3.
  { destruct (startNewSegment_cases curve Hl) as (segment' & Hseg' & Hc).
    rewrite Hseg in Hseg'. injection Hseg' as <-.
    destruct Hc as [(_ & _ & ->)|(_ & _ & _ & _ & _ & E & _)]; [reflexivity | exact E]. }
  destruct (status_is s1 SUCCESS) eqn:Hst.
  - injection H as <- <-. apply status_is_true in Hst.
    left. split; [exact Hst | exact (Refined_success_end HR Hst)].
  - assert (update_status s1 <> Some SUCCESS) as Hns.
    { intros Hs. apply status_is_true in Hs. congruence. }
    destruct (Refined_failure HR Hns) as (Hf & _ & _ & _ & E3').
    destruct (addToCurveImpl_inv _ _ _ H) as (l & Hl' & H2).
    rewrite Hl1 in Hl'. injection Hl' as <-.
    assert (tooClose (roundVec coord) s1 = false) as Hd1.
    { unfold tooClose, getLastPoint in *. now rewrite E3', E3. }
    destruct H2 as [(Hd' & _)|(_ & fresh & Hfresh & HR2)]; [congruence|].
    destruct (startNewSegment_cases curve1 Hl1) as (fresh' & Hfresh' & Hc).
    rewrite Hfresh in Hfresh'. injection Hfresh' as <-.
    destruct Hc as [([Hn|Hs] & _)|(_ & _ & F0 & F1 & F2 & F3 & _)].
    + destruct Hf; congruence.
    + contradiction.
    + assert (equalVec (c0 fresh) (c3 fresh) = true) as Hdeg
        by (now rewrite F0, F3, E3', E3).
      destruct (Refined_degenerate Hdeg HR2) as [Hok|(Hm & G0 & G1 & G2 & G3)].
      * now left.
      * right. split; [exact Hm|]. repeat split; congruence.
Qed.

(** ** The step counter *)

(** X8.  When the refinement step gets past the corner test, the
    counter it records on the segment tells the outcome: [SUCCESS] with
    [steps] between 1 and [MAX_ITERATIONS], or [FAIL_MAXED] with [steps]
    equal to [MAX_ITERATIONS + 1]. *)
Theorem recorded_steps_tell_the_outcome
    (fuel : nat) (curve : Curve num) (p : Vec num) (segment : CurveSegment num)
    (curve' : Curve num) (s' : CurveSegment num) :
  getLastSegment curve = Some segment ->
  checkCorner segment p = false ->
  updateDistanceField fuel curve p = Ok (curve', s') ->
  (update_status s' = Some SUCCESS /\
   exists n, steps s' = Some n /\ (1 <= n <= MAX_ITERATIONS)%nat) \/
  (update_status s' = Some FAIL_MAXED /\ steps s' = Some (S MAX_ITERATIONS)).
Proof.
  intros Hl Hc H. apply updateDistanceField_inv in H.
  destruct H as (segment' & Hl' & HR). rewrite Hl in Hl'. injection Hl' as <-.
  destruct HR as [Hc' _ _|m1 m2 seg n _ _ _ Hloop Hn -> _|m1 m2 seg n _ _ _ Hloop Hn -> _];
    [congruence| |];
    apply refineLoop_result in Hloop;
    destruct Hloop as (H0 & Hmax & Hsteps & _).
  - right. split; [reflexivity|]. cbn. rewrite Hsteps. f_equal.
    unfold MAX_ITERATIONS in *. lia.
  - left. split; [reflexivity|]. exists n. cbn. split; [exact Hsteps | lia].
Qed.

(** ** The distance map after a failure *)

(** X9.  After a failure the old distance map is never read: on a curve
    whose active segment is marked [FAIL_CORNER] or [FAIL_MAXED], and for a
    point that is not dropped as a duplicate, [addToCurve] gives the same
    result whatever [curve.vdmap] holds. *)
Theorem stale_distance_map_is_never_read
    (fuel : nat) (l : list (CurveSegment num)) (m m' : VDMap num) (coord : Vec num)
    (last_segment : CurveSegment num) :
  getLastSegment (mkCurve l m) = Some last_segment ->
  update_status last_segment = Some FAIL_CORNER \/
  update_status last_segment = Some FAIL_MAXED ->
  tooClose (roundVec coord) last_segment = false ->
  addToCurve fuel (mkCurve l m) coord = addToCurve fuel (mkCurve l m') coord.
Proof.
  intros Hl Hf Hd. unfold addToCurve. f_equal.
  generalize (roundVec coord) Hd. clear Hd. intros p Hd.
  assert (getLastSegment (mkCurve l m') = Some last_segment) as Hl' by exact Hl.
  rewrite (addToCurveImpl_refines fuel _ p Hl Hd).
  rewrite (addToCurveImpl_refines fuel _ p Hl' Hd).
  unfold startNewSegment. destruct Hf as [Hf|Hf]; rewrite Hf; reflexivity.
Qed.

(** ** Reading and writing the distance map *)

Section Keys.

(** Property names are compared by an equivalence. *)
Hypothesis key_refl : forall k : num, same_key k k = true.
Hypothesis key_sym : forall a b : num, same_key a b = true -> same_key b a = true.
Hypothesis key_trans :
  forall a b c : num, same_key a b = true -> same_key b c = true -> same_key a c = true.

Lemma same_key_false (a b c : num) :
  same_key a b = true -> same_key c b = false -> same_key c a = false.
Proof.
  intros Hab Hcb. destruct (same_key c a) eqn:E; [|reflexivity].
  rewrite (key_trans _ _ _ E Hab) in Hcb. discriminate.
Qed.

Lemma assoc_get_key {V : Type} (a b : num) (l : list (num * V)) :
  same_key a b = true -> assoc_get a l = assoc_get b l.
Proof.
  intros Hab. induction l as [|[k v] l IH]; [reflexivity|]. cbn.
  destruct (same_key b k) eqn:E.
  - now rewrite (key_trans _ _ _ Hab E).
  - destruct (same_key a k) eqn:E'; [|exact IH].
    rewrite (key_trans _ _ _ (key_sym _ _ Hab) E') in E. discriminate.
Qed.

Lemma assoc_get_set_other {V : Type} (k k' : num) (v : V) (l : list (num * V)) :
  same_key k' k = false -> assoc_get k' (assoc_set k v l) = assoc_get k' l.
Proof.
  intros Hk. induction l as [|[k0 v0] l IH]; cbn.
  - now rewrite Hk.
  - destruct (same_key k k0) eqn:E; cbn.
    + rewrite (same_key_false _ _ _ (key_sym _ _ E) Hk). reflexivity.
    + destruct (same_key k' k0); [reflexivity | exact IH].
Qed.

Lemma vdmap_get_storeCloser_other (m : VDMap num) (p val q : Vec num) :
  same_key (x q) (x p) && same_key (y q) (y p) = false ->
  vdmap_get (storeCloser m p val) q = vdmap_get m q.
Proof.
  intros Hk. unfold vdmap_get, storeCloser.
  destruct (same_key (x q) (x p)) eqn:Ex.
  - cbn in Hk. rewrite !(assoc_get_key _ _ _ Ex), assoc_get_set by apply key_refl.
    rewrite assoc_get_set_other by exact Hk.
    destruct (assoc_get (x p) m) as [col|]; reflexivity.
  - now rewrite assoc_get_set_other.
Qed.

Lemma vdmap_get_key (m : VDMap num) (p q : Vec num) :
  same_key (x q) (x p) && same_key (y q) (y p) = true ->
  vdmap_get m q = vdmap_get m p.
Proof.
  intros Hk. apply andb_true_iff in Hk. destruct Hk as [Ex Ey].
  unfold vdmap_get. rewrite (assoc_get_key _ _ _ Ex).
  destruct (assoc_get (x p) m) as [col|]; [|reflexivity].
  now apply assoc_get_key.
Qed.

Lemma storeCloser_keeps (m : VDMap num) (p val q : Vec num) :
  vdmap_get m q <> None -> vdmap_get (storeCloser m p val) q <> None.
Proof.
  intros Hq. destruct (same_key (x q) (x p) && same_key (y q) (y p)) eqn:Hk.
  - rewrite (vdmap_get_key _ _ _ Hk), vdmap_get_storeCloser by exact key_refl.
    discriminate.
  - now rewrite vdmap_get_storeCloser_other.
Qed.

Lemma stripColumn_keeps (q : Vec num) (fuel : nat) :
  forall j vert_steps vert_increment m current_location current_val m',
    stripColumn fuel j vert_steps vert_increment m current_location current_val = Ok m' ->
    vdmap_get m q <> None -> vdmap_get m' q <> None.
Proof.
  induction fuel as [|fuel IH]; intros j vs vi m loc val m'; cbn [stripColumn];
    destruct (j <? vs); try discriminate; try (now intros [= <-]).
  intros H Hq. apply IH in H; [exact H|]. now apply storeCloser_keeps.
Qed.

Lemma stripRows_keeps (q : Vec num) (inner fuel : nat) :
  forall i horiz_steps horiz_increment vert_steps vert_increment dist m location m',
    stripRows fuel inner i horiz_steps horiz_increment vert_steps vert_increment dist m
      location = Ok m' ->
    vdmap_get m q <> None -> vdmap_get m' q <> None.
Proof.
  induction fuel as [|fuel IH]; intros i hs hi vs vi dist m loc m'; cbn [stripRows];
    destruct (i <? hs); try discriminate; try (now intros [= <-]).
  destruct (stripColumn inner #0 vs vi m loc dist) as [m1|] eqn:Hc; [|discriminate].
  cbn [bind]. intros H Hq. apply IH in H; [exact H|].
  exact (stripColumn_keeps _ _ _ _ _ _ _ _ Hc Hq).
Qed.

Lemma capColumn_keeps (q : Vec num) (fuel : nat) :
  forall px py bottom current_point m m',
    capColumn fuel px py bottom current_point m = Ok m' ->
    vdmap_get m q <> None -> vdmap_get m' q <> None.
Proof.
  induction fuel as [|fuel IH]; intros px py bottom cp m m'; cbn [capColumn];
    destruct (py <? bottom); try discriminate; try (now intros [= <-]).
  intros H Hq. apply IH in H; [exact H|]. now apply storeCloser_keeps.
Qed.

Lemma capRows_keeps (q : Vec num) (inner fuel : nat) :
  forall px right top bottom current_point m m',
    capRows fuel inner px right top bottom current_point m = Ok m' ->
    vdmap_get m q <> None -> vdmap_get m' q <> None.
Proof.
  induction fuel as [|fuel IH]; intros px right top bottom cp m m'; cbn [capRows];
    destruct (px <? right); try discriminate; try (now intros [= <-]).
  destruct (capColumn inner px top bottom cp m) as [m1|] eqn:Hc; [|discriminate].
  cbn [bind]. intros H Hq. apply IH in H; [exact H|].
  exact (capColumn_keeps _ _ _ _ _ _ _ Hc Hq).
Qed.

(** X10.  Writing a pixel of the distance map leaves the other pixels as
    they were: after [storeCloser] at [p], a pixel [q] whose property name
    differs from that of [p] in one coordinate reads as before; a pixel with
    the same names reads as [p] does, before and after; and a pixel that was
    set is still set.  Property names are compared by an equivalence. *)
Theorem writing_a_pixel_leaves_the_others
    (m : VDMap num) (p val q : Vec num) :
  (same_key (x q) (x p) && same_key (y q) (y p) = false ->
   vdmap_get (storeCloser m p val) q = vdmap_get m q) /\
  (same_key (x q) (x p) && same_key (y q) (y p) = true ->
   vdmap_get (storeCloser m p val) q = vdmap_get (storeCloser m p val) p /\
   vdmap_get m q = vdmap_get m p) /\
  (vdmap_get m q <> None -> vdmap_get (storeCloser m p val) q <> None).
Proof.
  split; [apply vdmap_get_storeCloser_other|].
  split; [|apply storeCloser_keeps].
  intros Hk. split; now apply vdmap_get_key.
Qed.

(** X11.  A refinement step never erases a pixel of the distance map: a
    pixel that is set before [updateDistanceField] is set after it, whether
    the step ends at the corner test, at the iteration bound or in a fit. *)
Theorem refinement_step_never_erases_a_pixel
    (fuel : nat) (curve : Curve num) (p : Vec num)
    (curve' : Curve num) (s' : CurveSegment num) (q : Vec num) :
  updateDistanceField fuel curve p = Ok (curve', s') ->
  vdmap_get (vdmap curve) q <> None ->
  vdmap_get (vdmap curve') q <> None.
Proof.
  intros H Hq. apply updateDistanceField_inv in H. destruct H as (segment & _ & HR).
  destruct HR as [_ _ ->|m1 m2 seg n _ H1 H2 _ _ _ ->|m1 m2 seg n _ H1 H2 _ _ _ ->];
    cbn [setLastSegment vdmap]; [exact Hq| |];
    unfold paintStrip in H1; unfold paintEndCap in H2;
    apply (capRows_keeps q _ _ _ _ _ _ _ _ H2);
    apply (stripRows_keeps q _ _ _ _ _ _ _ _ _ _ H1); exact Hq.
Qed.

End Keys.

(** ** A loop counter that cannot grow *)

(** When [px + 1] is [px] and [px] is below the bound, the outer loop of
    the cap never leaves: whatever the fuel, it is spent. *)
Lemma capRows_stuck (inner : nat) (px right top bottom : num) (current_point : Vec num) :
  px + #1 = px -> (px <? right) = true ->
  forall (fuel : nat) (m : VDMap num),
    capRows fuel inner px right top bottom current_point m = Err OutOfFuel.
Proof.
  intros Hinc Hlt. induction fuel as [|fuel IH]; intros m; cbn [capRows]; rewrite Hlt;
    [reflexivity|].
  destruct (capColumn inner px top bottom current_point m) as [m'|e] eqn:Hc; cbn [bind].
  - rewrite Hinc. apply IH.
  - now rewrite (capColumn_fault _ _ _ _ _ _ Hc).
Qed.

(** X20.  The loops of the rendering count with Numbers.  When the first
    column of the end cap, [x - 9], is a Number that [+ 1] leaves as it is
    (in binary64, from 2^53 on) and that is below the last column, the
    refinement step never returns: however much fuel it is given, the fuel
    is spent. *)
Theorem refinement_step_can_run_forever
    (fuel : nat) (curve : Curve num) (p : Vec num) (segment : CurveSegment num) :
  let left := x (subVec p (mkVec FIELD_RADIUS FIELD_RADIUS)) in
  let right := x (addVec p (mkVec FIELD_RADIUS FIELD_RADIUS)) in
  getLastSegment curve = Some segment ->
  checkCorner segment p = false ->
  left + #1 = left ->
  (left <? right) = true ->
  updateDistanceField fuel curve p = Err OutOfFuel.
Proof.
  intros left right Hl Hc Hinc Hlt.
  destruct (updateDistanceField fuel curve p) as [[curve' s']|e] eqn:H.
  - exfalso. apply updateDistanceField_inv in H. destruct H as (segment' & Hl' & HR).
    rewrite Hl in Hl'. injection Hl' as <-.
    destruct HR as [Hc' _ _|m1 m2 seg n _ _ H2 _ _ _ _|m1 m2 seg n _ _ H2 _ _ _ _];
      [congruence| |];
      unfold paintEndCap in H2; cbv zeta in H2;
      rewrite (@capRows_stuck fuel _ _ _ _ p Hinc Hlt) in H2; discriminate H2.
  - now rewrite (updateDistanceField_fault _ _ _ Hl H).
Qed.

End Properties.

(** * The input source and the test *)

Section CaptureProperties.

Variable T : Type.

Lemma last_Some (A : Type) (l : list A) (a : A) : last (map Some (l ++ [a])) None = Some a.
Proof. rewrite map_app. cbn [map]. now rewrite last_last. Qed.

Lemma handleEvent_invariant (w : Capture T) (e : MouseEvent T) :
  (isDrawing w = true -> lines w <> []) ->
  Forall (fun line => line <> []) (lines w) ->
  exists w',
    handleEvent w e = Ok w' /\
    (isDrawing w' = true -> lines w' <> []) /\
    Forall (fun line => line <> []) (lines w') /\
    length (lines w') = ((if isMousedown e then 1 else 0) + length (lines w))%nat.
Proof.
  intros Hd Hn. destruct e as [p|p|]; cbn [handleEvent isMousedown].
  - eexists. split; [reflexivity|]. cbn. split; [intros _; now destruct (lines w)|].
    split; [apply Forall_app; split; [exact Hn | repeat constructor; discriminate]|].
    rewrite length_app. cbn. lia.
  - destruct (isDrawing w) eqn:Ed; cbn [negb].
    + destruct (exists_last (Hd eq_refl)) as (front & line & E).
      rewrite E, last_Some, removelast_last in *.
      eexists. split; [reflexivity|]. cbn. split; [intros _; now destruct front|].
      apply Forall_app in Hn. destruct Hn as [Hf _].
      split; [apply Forall_app; split; [exact Hf|]|].
      * repeat constructor. now destruct line.
      * rewrite !length_app. cbn. lia.
    + exists w. split; [reflexivity|]. split; [rewrite Ed; discriminate|].
      split; [exact Hn | reflexivity].
  - eexists. split; [reflexivity|]. cbn. repeat split; try assumption. discriminate.
Qed.

(** X18.  The listeners of test-utils/capture.ts never throw, whatever
    the order of the events: a move is recorded only while a button is held,
    and then a line exists.  Every recorded line has at least one point, the
    one of its [mousedown], and there are as many lines as [mousedown]
    events. *)
Theorem captured_lines_are_never_empty (es : list (MouseEvent T)) :
  exists w,
    handleEvents (initCapture T) es = Ok w /\
    Forall (fun line => line <> []) (lines w) /\
    length (lines w) = length (filter (@isMousedown T) es).
Proof.
  assert (forall w0,
            (isDrawing w0 = true -> lines w0 <> []) ->
            Forall (fun line => line <> []) (lines w0) ->
            exists w,
              handleEvents w0 es = Ok w /\
              Forall (fun line => line <> []) (lines w) /\
              length (lines w) = (length (filter (@isMousedown T) es) + length (lines w0))%nat)
    as H.
  { induction es as [|e r IH]; intros w0 Hd Hn.
    - exists w0. now repeat split.
    - destruct (@handleEvent_invariant w0 e Hd Hn) as (w1 & H1 & Hd1 & Hn1 & Hl1).
      destruct (IH w1 Hd1 Hn1) as (w & Hw & Hnw & Hlw).
      exists w. cbn [handleEvents]. rewrite H1. cbn [bind].
      split; [exact Hw|]. split; [exact Hnw|].
      rewrite Hlw, Hl1. cbn [filter]. destruct (isMousedown e); cbn; lia. }
  destruct (H (initCapture T)) as (w & Hw & Hn & Hl).
  - discriminate.
  - constructor.
  - exists w. cbn in Hl. rewrite Nat.add_0_r in Hl. now repeat split.
Qed.

End CaptureProperties.

Section TestProperties.
Context {N : Number}.

Lemma reduceAddToCurve_addAllToCurve (fuel : nat) (points : list (Vec num)) :
  forall (curve : Curve num) (memo : Memo),
    reduceAddToCurve fuel curve memo points =
    do cr <- addAllToCurve fuel curve points;
    Ok (fst cr, last (map MemoSegment (snd cr)) memo).
Proof.
  induction points as [|point r IH]; intros curve memo; [reflexivity|].
  cbn [reduceAddToCurve addAllToCurve].
  destruct (addToCurve fuel curve point) as [[curve1 s1]|]; [|reflexivity].
  cbn [bind]. rewrite IH.
  destruct (addAllToCurve fuel curve1 r) as [[curve2 returned]|]; [|reflexivity].
  cbn [bind fst snd map]. f_equal. f_equal.
  destruct returned as [|s returned]; [reflexivity|].
  cbn [map]. generalize (MemoSegment s) (map MemoSegment returned).
  intros a l. revert a. induction l as [|b l IHl]; intros a; [reflexivity|].
  cbn. destruct l; [reflexivity|]. apply (IHl b).
Qed.

(** X19.  The test of src/main.test.ts never hands the second point of a
    line to the fitter: [reduce] without an initial value takes it as the
    first [memo].  On an empty line and on a line of one point the test
    throws; on a line of two points [addToCurve] is not called and the value
    given to [expect] is the second point; on a longer line the curve is that
    of the stroke without the second point, and the value is the segment the
    last [addToCurve] returned. *)
Theorem test_skips_the_second_point (fuel : nat) (first second : Vec num) :
  fitsCurves fuel [] = Err TypeError /\
  fitsCurves fuel [first] = Err TypeError /\
  fitsCurves fuel [first; second] = Ok (startCurve first, MemoPoint second) /\
  forall (third : Vec num) (rest : list (Vec num)),
    fitsCurves fuel (first :: second :: third :: rest) =
    do cr <- drawStroke fuel first (third :: rest);
    Ok (fst cr, last (map MemoSegment (snd cr)) (MemoPoint second)).
Proof.
  repeat split. intros third rest. unfold fitsCurves, drawStroke.
  apply reduceAddToCurve_addAllToCurve.
Qed.

End TestProperties.

(** * The constraint in exact arithmetic *)

Module ExactFacts.

Import Exact.


End ExactFacts.

(** * The geometry in exact arithmetic *)

Module ExactGeometry.

Import Exact.



Import Rbase Rfunctions R_sqrt R_Ifp Rbasic_fun Rtrigo1 Ratan Lra.
Local Open Scope R_scope.











(** ** The corner detector on a straight continuation *)









(** ** The end cap *)


























(** ** Every call returns *)










(** ** The weight of the end samples *)


(** ** Instances *)








End ExactGeometry.

(** * Rational arithmetic *)

Module Rationals.

Import QArith.


End Rationals.

(** * The fitter on binary64 *)

Module Binary64.

Import Floats IEEE.

Lemma same_key_refl (k : float) : @same_key binary64 k k = true.
Proof. cbn. unfold is_nan. now destruct (k =? k)%float. Qed.

(** ** C1: the loop runs [MAX_ITERATIONS + 1] times *)

(** C1.  On the stroke (0,0), (50,0), (50,50) the refinement of the first
    segment with the third point runs 51 turns of the loop, one more than
    [MAX_ITERATIONS]: the loop returns with its counter at 51, the segment
    records 51 steps and is given up as [FAIL_MAXED]; the retry on the new
    segment takes one turn. *)
Theorem refinement_runs_51_steps :
  let curve := curveAfter (pt 0 0) [pt 50 0; pt 50 50] in
  snd (loopOf (curveAfter (pt 0 0) [pt 50 0]) (pt 50 50)) = 51%nat /\
  map (@steps _) (segments curve) = [Some 51%nat; Some 1%nat] /\
  map (@update_status _) (segments curve) = [Some FAIL_MAXED; Some SUCCESS] /\
  (MAX_ITERATIONS < 51)%nat.
Proof.
  cbv zeta. split; [vm_compute; reflexivity|].
  split; [vm_compute; reflexivity|].
  split; [vm_compute; reflexivity|].
  unfold MAX_ITERATIONS. lia.
Qed.

(** ** Witnesses of the control-flow theorems *)

Lemma returned_isOk {A : Type} (d : A) (r : Res A) :
  isOk r = true -> r = Ok (returned d r).
Proof. destruct r; [reflexivity | discriminate]. Qed.

Lemma returned_pair {A B : Type} (d : A * B) (r : Res (A * B)) :
  isOk r = true -> r = Ok (fst (returned d r), snd (returned d r)).
Proof. destruct r as [[a b]|]; [reflexivity | discriminate]. Qed.

Lemma stroke_returns (first : Vec (@num binary64)) (rest : list (Vec (@num binary64))) :
  isOk (drawStroke 100 first rest) = true ->
  drawStroke 100 first rest = Ok (curveAfter first rest, segmentsReturned first rest).
Proof. intros H. exact (returned_pair _ _ H). Qed.

Lemma last_is_some (l : list (CurveSegment (@num binary64))) :
  forall a, exists s, last (map Some (a :: l)) None = Some s.
Proof.
  induction l as [|b l IH]; intros a; [eexists; reflexivity|].
  destruct (IH b) as [s Hs]. exists s. exact Hs.
Qed.

Lemma active_is_last (curve : Curve (@num binary64)) :
  segments curve <> [] -> getLastSegment curve = Some (activeSegment curve).
Proof.
  unfold activeSegment, getLastSegment.
  destruct (segments curve) as [|a l]; [congruence|]. intros _.
  destruct (last_is_some l a) as [s Hs]. now rewrite Hs.
Qed.

Lemma strip_returns (curve : Curve (@num binary64)) (p : Vec (@num binary64)) :
  isOk (paintStrip 100 (vdmap curve) (getLastPoint (activeSegment curve)) p) = true ->
  paintStrip 100 (vdmap curve) (getLastPoint (activeSegment curve)) p
    = Ok (stripOf curve p).
Proof. intros H. exact (returned_isOk _ _ H). Qed.

Lemma cap_returns (curve : Curve (@num binary64)) (p : Vec (@num binary64)) :
  isOk (paintEndCap 100 (stripOf curve p) p) = true ->
  paintEndCap 100 (stripOf curve p) p = Ok (capOf curve p).
Proof. intros H. exact (returned_isOk _ _ H). Qed.

Lemma loop_returns (curve : Curve (@num binary64)) (p : Vec (@num binary64)) :
  isOk (refineLoop 100 (capOf curve p) (extendSegment (activeSegment curve) p) 0) = true ->
  refineLoop 100 (capOf curve p) (extendSegment (activeSegment curve) p) 0
    = Ok (fst (loopOf curve p), snd (loopOf curve p)).
Proof. intros H. exact (returned_pair _ _ H). Qed.

Lemma refined_returns (curve : Curve (@num binary64)) (p : Vec (@num binary64)) :
  isOk (updateDistanceField 100 curve p) = true ->
  updateDistanceField 100 curve p = Ok (fst (refinedOf curve p), snd (refinedOf curve p)).
Proof. intros H. exact (returned_pair _ _ H). Qed.

Lemma success_has_error_below_max_witness :
  exists e,
    error (activeSegment (curveAfter (pt 0 0) [pt 10 0])) = Some e /\
    (e <? MAX_ERROR)%num = true.
Proof.
  apply (@success_has_error_below_max binary64 100 (pt 0 0) [pt 10 0]
           (curveAfter (pt 0 0) [pt 10 0]) (segmentsReturned (pt 0 0) [pt 10 0])).
  - apply stroke_returns. vm_compute; reflexivity.
  - vm_compute. left; reflexivity.
  - vm_compute; reflexivity.
Defined.

Lemma exhausted_budget_restores_snapshot_witness :
  exists curve' s',
    updateDistanceField 100 (curveAfter (pt 0 0) [pt 50 0]) (pt 50 50)
      = Ok (curve', s') /\
    getLastSegment curve' = Some s' /\
    update_status s' = Some FAIL_MAXED /\
    (let og_controls := copySegment (activeSegment (curveAfter (pt 0 0) [pt 50 0])) in
     c0 s' = c0 og_controls /\ c1 s' = c1 og_controls /\
     c2 s' = c2 og_controls /\ c3 s' = c3 og_controls /\
     error s' = error og_controls /\
     constrain_to s' = constrain_to og_controls) /\
    c0 s' = c0 (activeSegment (curveAfter (pt 0 0) [pt 50 0])) /\
    c1 s' = c1 (activeSegment (curveAfter (pt 0 0) [pt 50 0])) /\
    c2 s' = c2 (activeSegment (curveAfter (pt 0 0) [pt 50 0])) /\
    c3 s' = c3 (activeSegment (curveAfter (pt 0 0) [pt 50 0])) /\
    constrain_to s' = constrain_to (activeSegment (curveAfter (pt 0 0) [pt 50 0])).
Proof.
  apply (@exhausted_budget_restores_snapshot binary64 100
           (curveAfter (pt 0 0) [pt 50 0]) (pt 50 50)
           (activeSegment (curveAfter (pt 0 0) [pt 50 0]))
           (stripOf (curveAfter (pt 0 0) [pt 50 0]) (pt 50 50))
           (capOf (curveAfter (pt 0 0) [pt 50 0]) (pt 50 50))
           (fst (loopOf (curveAfter (pt 0 0) [pt 50 0]) (pt 50 50)))
           (snd (loopOf (curveAfter (pt 0 0) [pt 50 0]) (pt 50 50)))).
  - apply active_is_last. vm_compute. discriminate.
  - vm_compute; reflexivity.
  - apply strip_returns. vm_compute; reflexivity.
  - apply cap_returns. vm_compute; reflexivity.
  - apply loop_returns. vm_compute; reflexivity.
  - vm_compute. lia.
Defined.

Lemma failed_attempt_is_retried_once_witness :
  (update_status (snd back_attempt) = Some SUCCESS ->
   addToCurve 100 axis_curve back_point = Ok (fst back_attempt, snd back_attempt)) /\
  (update_status (snd back_attempt) <> Some SUCCESS ->
   (exists new_segment,
      startNewSegment (fst back_attempt) (snd back_attempt)
        = mkCurve (segments (fst back_attempt) ++ [new_segment]) []) /\
   addToCurve 100 axis_curve back_point
     = updateDistanceField 100
         (startNewSegment (fst back_attempt) (snd back_attempt)) (roundVec back_point)).
Proof.
  apply (@failed_attempt_is_retried_once binary64 100 axis_curve back_point
           (activeSegment axis_curve) (fst back_attempt) (snd back_attempt)).
  - apply active_is_last. vm_compute. discriminate.
  - vm_compute; reflexivity.
  - apply refined_returns. vm_compute; reflexivity.
Defined.

Lemma corner_opens_one_new_segment_witness :
  let prior := activeSegment axis_curve in
  let marked := set_update_status prior FAIL_CORNER in
  let anchor := getLastPoint prior in
  let opened :=
    mkCurve ((removelast (segments axis_curve) ++ [marked])
             ++ [initCurveSegment (x anchor) (y anchor)]) [] in
  addToCurve 100 axis_curve back_point
    = updateDistanceField 100 opened (roundVec back_point) /\
  c0 marked = c0 prior /\ c1 marked = c1 prior /\
  c2 marked = c2 prior /\ c3 marked = c3 prior /\
  forall curve' s',
    addToCurve 100 axis_curve back_point = Ok (curve', s') ->
    segments curve' = removelast (segments axis_curve) ++ [marked; s'] /\
    length (segments curve') = S (length (segments axis_curve)) /\
    c0 s' = c3 prior.
Proof.
  apply (@corner_opens_one_new_segment binary64 100 axis_curve back_point
           (activeSegment axis_curve)).
  - apply active_is_last. vm_compute. discriminate.
  - right. vm_compute; reflexivity.
  - vm_compute; reflexivity.
  - vm_compute; reflexivity.
Defined.

Lemma duplicate_point_keeps_stale_failure_witness :
  addToCurve 100 stuck_curve (vec (- huge) 0)
    = Ok (stuck_curve, activeSegment stuck_curve).
Proof.
  apply (@duplicate_point_keeps_stale_failure binary64 100 stuck_curve
           (vec (- huge) 0) (activeSegment stuck_curve)).
  - apply active_is_last. vm_compute. discriminate.
  - right. vm_compute; reflexivity.
  - vm_compute; reflexivity.
Defined.

Lemma closer_wins_and_ties_replace_witness :
  vdmap_get (storeCloser (vdmap axis_curve) (pt 9 1) (vec (-1) 0)) (pt 9 1)
    = Some (vec (-1) 0).
Proof.
  apply (proj1 (proj2 (@closer_wins_and_ties_replace binary64 same_key_refl
                         (vdmap axis_curve)))
           (pt 9 1) (vec (-1) 0) (vec 0 1)).
  - vm_compute; reflexivity.
  - vm_compute; reflexivity.
Defined.

Lemma corner_iff_angle_below_threshold_witness :
  let segment := activeSegment axis_curve in
  let back :=
    @getUnitVector binary64 (subVec (getPointAlongCurve segment lit_0_95) (c3 segment)) in
  let ahead :=
    @getUnitVector binary64
      (mkVec (x back_point - x (c3 segment))%num (y back_point - y (c3 segment))%num) in
  let angle := @radiansToDegrees binary64 (Math_acos (dotProduct back ahead)) in
  @checkCorner binary64 segment back_point = true <->
  (angle <? MAX_CORNER_ANGLE)%num = true.
Proof.
  assert (@equalVec binary64 (c0 (activeSegment axis_curve)) (c3 (activeSegment axis_curve))
          = false) as H by (vm_compute; reflexivity).
  exact (proj2 (@corner_iff_angle_below_threshold binary64
                  (activeSegment axis_curve) back_point) H).
Defined.

(** The straight stroke (0,0), (10,0), (20,0) is one segment, fitted with
    error 0 and with [c1] and [c2] on the x axis. *)
Example straight_stroke_is_one_segment :
  let curve := curveAfter (pt 0 0) [pt 10 0; pt 20 0] in
  map (@update_status _) (segments curve) = [Some SUCCESS] /\
  error (activeSegment curve) = Some 0%float /\
  y (c1 (activeSegment curve)) = 0%float /\
  y (c2 (activeSegment curve)) = 0%float /\
  c3 (activeSegment curve) = pt 20 0.
Proof. cbv zeta. repeat apply conj; vm_compute; reflexivity. Qed.

(** ** Where the code departs from the specification's wording *)

(** C4, counterexample.  On the segment fitted to (0,0), (10,0), a point
    straight ahead, (20,0), is no corner for the code and a corner for the
    test as specified; a point straight back, (0,0), is a corner for the
    code and none for the test as specified. *)
Lemma corner_tangent_points_back :
  let segment := activeSegment axis_curve in
  @checkCorner binary64 segment (pt 20 0) = false /\
  @checkCorner_as_specified binary64 segment (pt 20 0) = true /\
  @checkCorner binary64 segment (pt 0 0) = true /\
  @checkCorner_as_specified binary64 segment (pt 0 0) = false.
Proof. cbv zeta. repeat apply conj; vm_compute; reflexivity. Qed.

(** C6, counterexample.  After the stroke (0,0), (10,0) the pixel (9,1)
    holds the offset (0,1).  The third point (10,10) paints a strip whose
    candidate for that pixel is (-1,0): the two have the same sum of
    squares, and the pixel then holds (-1,0).  The rule as specified would
    have kept (0,1). *)
Lemma tie_replaces_stored_value :
  let before := vdmap axis_curve in
  let after := vdmap (curveAfter (pt 0 0) [pt 10 0; pt 10 10]) in
  vdmap_get before (pt 9 1) = Some (vec 0 1) /\
  vdmap_get after (pt 9 1) = Some (vec (-1) 0) /\
  @sumOfSquaresVec binary64 (vec (-1) 0) = @sumOfSquaresVec binary64 (vec 0 1) /\
  vdmap_get (storeCloser before (pt 9 1) (vec (-1) 0)) (pt 9 1) = Some (vec (-1) 0) /\
  vdmap_get (storeCloser_as_specified before (pt 9 1) (vec (-1) 0)) (pt 9 1)
    = Some (vec 0 1).
Proof. cbv zeta. repeat apply conj; vm_compute; reflexivity. Qed.


(** ** Zero-length vectors *)




(** ** Property names *)

Lemma SFeqb_same (a b : spec_float) :
  SFeqb a b = true <->
  a <> S754_nan /\ keyOfSF a = keyOfSF b.
Proof.
  unfold SFeqb, SFcompare, keyOfSF.
  destruct a as [sa|sa| |sa ma ea], b as [sb|sb| |sb mb eb];
    try destruct sa; try destruct sb;
    try (split;
         [intros H; first [discriminate H | split; [discriminate | reflexivity]]
         |intros [Hn H]; first [discriminate H | reflexivity | now contradiction Hn]]).
  all: change (PosDef.Pos.compare_cont Eq ma mb) with (Pos.compare ma mb);
    destruct (Z.compare_spec ea eb) as [->|He|He];
      [destruct (Pos.compare_spec ma mb) as [->|Hm|Hm]|..]; cbn;
      (split; [intros H; first [discriminate H | split; [discriminate | reflexivity]]
              |intros [_ H]; first [reflexivity | injection H; intros; subst; lia]]).
Qed.

Lemma same_key_keyOf (a b : float) :
  @same_key binary64 a b = true <-> keyOf a = keyOf b.
Proof.
  cbn. unfold is_nan, keyOf. rewrite !eqb_spec.
  assert (forall v, (v <> S754_nan /\ keyOfSF v = keyOfSF v -> false = true) ->
                    v = S754_nan) as Hnan.
  { intros v Hv. destruct v; try reflexivity;
      (assert (false = true) as F by (apply Hv; split; [discriminate | reflexivity]));
      discriminate F. }
  generalize (SFeqb_same (Prim2SF a) (Prim2SF b)) (SFeqb_same (Prim2SF a) (Prim2SF a))
             (SFeqb_same (Prim2SF b) (Prim2SF b)).
  destruct (SFeqb (Prim2SF a) (Prim2SF b)), (SFeqb (Prim2SF a) (Prim2SF a)),
           (SFeqb (Prim2SF b) (Prim2SF b)); cbn; intros Hab Haa Hbb;
    (split; [intros H; try discriminate H; try exact (proj2 (proj1 Hab eq_refl))
            |intros H; try reflexivity]).
  - exfalso. apply proj1 in Haa. destruct (Haa eq_refl) as [Ha _].
    assert (false = true) as F by (apply Hab; now split). discriminate F.
  - exfalso. apply proj1 in Haa. destruct (Haa eq_refl) as [Ha _].
    assert (false = true) as F by (apply Hab; now split). discriminate F.
  - exfalso. destruct (proj1 Hbb eq_refl) as [Hb _].
    rewrite (Hnan _ (proj2 Haa)) in H.
    destruct (Prim2SF b); try discriminate H. now apply Hb.
  - now rewrite (Hnan _ (proj2 Haa)), (Hnan _ (proj2 Hbb)).
Qed.

Lemma same_key_sym (a b : float) :
  @same_key binary64 a b = true -> @same_key binary64 b a = true.
Proof. rewrite !same_key_keyOf. congruence. Qed.

Lemma same_key_trans (a b c : float) :
  @same_key binary64 a b = true -> @same_key binary64 b c = true ->
  @same_key binary64 a c = true.
Proof. rewrite !same_key_keyOf. congruence. Qed.

(** ** Instances of the properties of the curve *)

Lemma add_returns (curve : Curve (@num binary64)) (coord : Vec (@num binary64)) :
  isOk (addToCurve 100 curve coord) = true ->
  addToCurve 100 curve coord = Ok (fst (addedTo curve coord), snd (addedTo curve coord)).
Proof. intros H. exact (returned_pair _ _ H). Qed.

Lemma only_the_tail_of_the_curve_changes_witness :
  getLastSegment (fst (addedTo axis_curve back_point))
    = Some (snd (addedTo axis_curve back_point)) /\
  exists closed,
    segments (fst (addedTo axis_curve back_point))
      = removelast (segments axis_curve) ++ closed ++ [snd (addedTo axis_curve back_point)] /\
    (length closed <= 2)%nat /\
    Forall (@failed binary64) closed /\
    length (segments (fst (addedTo axis_curve back_point)))
      = (length (segments axis_curve) + length closed)%nat.
Proof.
  apply (@only_the_tail_of_the_curve_changes binary64 100 axis_curve back_point).
  apply add_returns. vm_compute; reflexivity.
Defined.

Lemma stroke_is_a_connected_chain_witness :
  (exists s l,
     segments (curveAfter (pt 0 0) [pt 50 0; pt 50 50]) = s :: l /\
     c0 s = @roundVec binary64 (pt 0 0)) /\
  (forall pre a b post,
     segments (curveAfter (pt 0 0) [pt 50 0; pt 50 50]) = pre ++ a :: b :: post ->
     c0 b = c3 a).
Proof.
  apply (@stroke_is_a_connected_chain binary64 100 (pt 0 0) [pt 50 0; pt 50 50]
           (curveAfter (pt 0 0) [pt 50 0; pt 50 50])
           (segmentsReturned (pt 0 0) [pt 50 0; pt 50 50])).
  apply stroke_returns. vm_compute; reflexivity.
Defined.

Lemma only_the_last_segment_is_open_witness :
  let s := hd (initCurveSegment 0%float 0%float)
              (segments (curveAfter (pt 0 0) [pt 50 0; pt 50 50])) in
  update_status s = Some FAIL_CORNER \/ update_status s = Some FAIL_MAXED.
Proof.
  apply (@only_the_last_segment_is_open binary64 100 (pt 0 0) [pt 50 0; pt 50 50]
           (curveAfter (pt 0 0) [pt 50 0; pt 50 50])
           (segmentsReturned (pt 0 0) [pt 50 0; pt 50 50])).
  - apply stroke_returns. vm_compute; reflexivity.
  - vm_compute. left; reflexivity.
Defined.

Lemma points_within_the_radius_are_ignored_witness :
  addAllToCurve 100 axis_curve [vec 10.25 0.25; pt 10 0; vec 9.75 (-0.25)]
    = Ok (axis_curve,
          map (fun _ => activeSegment axis_curve)
              [vec 10.25 0.25; pt 10 0; vec 9.75 (-0.25)]).
Proof.
  apply (@points_within_the_radius_are_ignored binary64 100 axis_curve
           (activeSegment axis_curve)).
  - apply active_is_last. vm_compute. discriminate.
  - repeat apply Forall_cons; try apply Forall_nil; vm_compute; reflexivity.
Defined.

Lemma fitted_point_sent_again_changes_nothing_witness :
  addToCurve 100 (fst (addedTo axis_curve (pt 20 0))) (pt 20 0)
    = Ok (fst (addedTo axis_curve (pt 20 0)), snd (addedTo axis_curve (pt 20 0))).
Proof.
  apply (@fitted_point_sent_again_changes_nothing binary64 100 axis_curve (pt 20 0)).
  - vm_compute; reflexivity.
  - apply add_returns. vm_compute; reflexivity.
  - vm_compute; reflexivity.
Defined.

Lemma accepted_point_is_fitted_or_given_up_witness :
  (update_status (snd (addedTo axis_curve back_point)) = Some SUCCESS /\
   c3 (snd (addedTo axis_curve back_point)) = @roundVec binary64 back_point) \/
  (update_status (snd (addedTo axis_curve back_point)) = Some FAIL_MAXED /\
   c0 (snd (addedTo axis_curve back_point)) = c3 (activeSegment axis_curve) /\
   c1 (snd (addedTo axis_curve back_point)) = c3 (activeSegment axis_curve) /\
   c2 (snd (addedTo axis_curve back_point)) = c3 (activeSegment axis_curve) /\
   c3 (snd (addedTo axis_curve back_point)) = c3 (activeSegment axis_curve)).
Proof.
  apply (@accepted_point_is_fitted_or_given_up binary64 100 axis_curve back_point
           (activeSegment axis_curve) (fst (addedTo axis_curve back_point))).
  - apply active_is_last. vm_compute. discriminate.
  - vm_compute; reflexivity.
  - vm_compute; reflexivity.
  - apply add_returns. vm_compute; reflexivity.
Defined.

Lemma recorded_steps_tell_the_outcome_witness :
  let s' := snd (refinedOf (curveAfter (pt 0 0) [pt 50 0]) (pt 50 50)) in
  (update_status s' = Some SUCCESS /\
   exists n, steps s' = Some n /\ (1 <= n <= MAX_ITERATIONS)%nat) \/
  (update_status s' = Some FAIL_MAXED /\ steps s' = Some (S MAX_ITERATIONS)).
Proof.
  apply (@recorded_steps_tell_the_outcome binary64 100 (curveAfter (pt 0 0) [pt 50 0])
           (pt 50 50) (activeSegment (curveAfter (pt 0 0) [pt 50 0]))
           (fst (refinedOf (curveAfter (pt 0 0) [pt 50 0]) (pt 50 50)))).
  - apply active_is_last. vm_compute. discriminate.
  - vm_compute; reflexivity.
  - apply refined_returns. vm_compute; reflexivity.
Defined.

Lemma stale_distance_map_is_never_read_witness :
  addToCurve 100 (mkCurve [cornered] (vdmap axis_curve)) (pt 20 5)
    = addToCurve 100 (mkCurve [cornered] []) (pt 20 5).
Proof.
  apply (@stale_distance_map_is_never_read binary64 100 [cornered] (vdmap axis_curve) []
           (pt 20 5) cornered).
  - reflexivity.
  - left; reflexivity.
  - vm_compute; reflexivity.
Defined.

Lemma writing_a_pixel_leaves_the_others_witness :
  (@same_key binary64 (x (pt 9 2)) (x (pt 9 1))
   && @same_key binary64 (y (pt 9 2)) (y (pt 9 1)) = false ->
   vdmap_get (storeCloser (vdmap axis_curve) (pt 9 1) (vec (-1) 0)) (pt 9 2)
     = vdmap_get (vdmap axis_curve) (pt 9 2)) /\
  (@same_key binary64 (x (pt 9 2)) (x (pt 9 1))
   && @same_key binary64 (y (pt 9 2)) (y (pt 9 1)) = true ->
   vdmap_get (storeCloser (vdmap axis_curve) (pt 9 1) (vec (-1) 0)) (pt 9 2)
     = vdmap_get (storeCloser (vdmap axis_curve) (pt 9 1) (vec (-1) 0)) (pt 9 1) /\
   vdmap_get (vdmap axis_curve) (pt 9 2) = vdmap_get (vdmap axis_curve) (pt 9 1)) /\
  (vdmap_get (vdmap axis_curve) (pt 9 2) <> None ->
   vdmap_get (storeCloser (vdmap axis_curve) (pt 9 1) (vec (-1) 0)) (pt 9 2) <> None).
Proof.
  exact (@writing_a_pixel_leaves_the_others binary64 same_key_refl same_key_sym
           same_key_trans (vdmap axis_curve) (pt 9 1) (vec (-1) 0) (pt 9 2)).
Defined.

Lemma refinement_step_never_erases_a_pixel_witness :
  vdmap_get (vdmap (fst (refinedOf axis_curve (pt 20 0)))) (pt 9 1) <> None.
Proof.
  apply (@refinement_step_never_erases_a_pixel binary64 same_key_refl same_key_sym
           same_key_trans 100 axis_curve (pt 20 0)
           (fst (refinedOf axis_curve (pt 20 0))) (snd (refinedOf axis_curve (pt 20 0)))).
  - apply refined_returns. vm_compute; reflexivity.
  - vm_compute. discriminate.
Defined.

Lemma refinement_step_can_run_forever_witness :
  @updateDistanceField binary64 100 (@startCurve binary64 (pt 0 0)) far = Err OutOfFuel.
Proof.
  apply (@refinement_step_can_run_forever binary64 100 (@startCurve binary64 (pt 0 0)) far
           (activeSegment (@startCurve binary64 (pt 0 0)))).
  - reflexivity.
  - vm_compute; reflexivity.
  - vm_compute; reflexivity.
  - vm_compute; reflexivity.
Defined.

End Binary64.
